(** * Anomaly detection engine of procure-erp-backend

    A shallow embedding of
    [src/common/security/services/anomaly-detection.service.ts]
    (class [AnomalyDetectionService]) together with the tables of the
    Prisma migrations it reads and writes, and the properties of the
    three detectors, the administrator lookup, the anomaly recorder and
    the scheduled sweep.

    Conventions of the embedding.
    - Timestamps are milliseconds since the epoch, in [Z]; one sweep reads
      the clock ([Date.now()]) as the field [now] of the store.
    - [total_amount] is a JavaScript number; it is embedded as an exact
      rational ([Q]), so rounding of doubles is outside the model.
    - An [async] method is a state transformer over the [World] that
      either resolves with a value or rejects.  Every awaited call to
      Prisma or to the notification service may reject; whether it does
      is decided by the oracle [faults] of the world, from the call, its
      arguments and the number of calls made before it.  What is thrown is
      an [Error], so that reading [error.stack] in a handler does not throw.
    - The text of log lines and of notification subjects and messages is
      not modelled: a log line is identified by its statement. *)

From Stdlib Require Import ZArith QArith Bool List Lia Lqa.
From stdpp Require Import base strings gmap list sorting.

Local Open Scope Z_scope.
#[local] Set Warnings "-clear-no-such-hyp".

(** ** Tables (prisma/migrations) *)

Module TestUser.
Record t := mk {
  id : string;
  username : string;
  email : string;
  role : string;
  is_active : bool
}.
End TestUser.

Module TestOrder.
Record t := mk {
  id : string;
  order_number : string;
  user_id : string;
  status : string;
  total_amount : Q;
  created_at : Z
}.
End TestOrder.

Module AuditLog.
Record t := mk {
  id : string;
  user_id : option string;
  action : string;
  resource : string;
  ip_address : string;
  response_status : Z;
  timestamp : Z
}.
End AuditLog.

Inductive Severity := low | medium | high.

(** The [details] payload of a finding ([Record<string, any>] in the
    source), one shape per caller of [logAnomaly]. *)
Inductive Details :=
| HighPurchaseDetails (orderId : string) (amount avgAmount : Q)
| AuthFailureDetails (ipAddress : string) (count : nat)
| UnusualAccessDetails (username : option string)
                       (unusualResources unusualIps : list string).

Module AnomalyLogRecord.
(** A row of "anomaly_logs". *)
Record t := mk {
  id : nat;
  type : string;
  severity : Severity;
  user_id : option string;
  details : Details;
  detected_at : Z;
  is_resolved : bool;
  resolved_at : option Z;
  resolved_by : option string;
  notes : option string
}.

(** The [data] argument of [prisma.anomalyLogRecord.create] in
    [logAnomaly]: the six fields the source supplies. *)
Record CreateInput := mkInput {
  in_type : string;
  in_severity : Severity;
  in_user_id : option string;
  in_details : Details;
  in_detected_at : Z;
  in_is_resolved : bool
}.

(** The inserted row: the supplied fields, a fresh primary key, and NULL
    for the nullable columns without default ("resolved_at",
    "resolved_by", "notes"). *)
Definition row (key : nat) (d : CreateInput) : t :=
  {| id := key;
     type := in_type d;
     severity := in_severity d;
     user_id := in_user_id d;
     details := in_details d;
     detected_at := in_detected_at d;
     is_resolved := in_is_resolved d;
     resolved_at := None;
     resolved_by := None;
     notes := None |}.

(** What a finding says, apart from its primary key. *)
Definition content (r : t) : string * Severity * option string * Details * Z :=
  (type r, severity r, user_id r, details r, detected_at r).
End AnomalyLogRecord.

(** ** Notifications *)

(** [metadata] of a notification: [anomalyType], [userId], the detector's
    own fields (the same as the finding's details) and [timestamp]. *)
Record Metadata := {
  anomalyType : string;
  userId : option string;
  fields : Details;
  timestamp : Z
}.

Record NotificationPayload := {
  severity : Severity;
  metadata : Metadata
}.

(** ** Awaited calls, log statements and the world *)

(** The calls the service awaits on its collaborators. *)
Inductive Call :=
| testOrder_findMany (gte : Z)
| queryRaw_userStats (user_id : string) (from to : Z)
| auditLog_groupBy (gte : Z)
| auditLog_findMany_recent (gte : Z)
| auditLog_findMany_past (user_id : string) (gte lt : Z)
| testUser_findUnique (id : string)
| testUser_findMany (role : string)
| sendNotification (channels recipients : list string)
                   (payload : NotificationPayload)
| anomalyLogRecord_create (data : AnomalyLogRecord.CreateInput).

(** The [this.logger] statements of the service. *)
Inductive LogLine :=
| log_sweep_started
| log_sweep_completed
| log_high_value_started
| warn_high_value (purchase : TestOrder.t) (avgAmount : Q)
| error_high_value
| log_auth_failures_started
| warn_auth_failures (ip_address : string) (user_id : option string) (count : nat)
| error_auth_failures
| log_unusual_access_started
| warn_unusual_access (userId : string)
| error_unusual_access
| error_get_administrators
| error_log_anomaly.

Inductive Event :=
| Logged (l : LogLine)
| Called (c : Call) (resolved : bool).

Record World := mkWorld {
  test_orders : list TestOrder.t;
  test_users : list TestUser.t;
  audit_logs : list AuditLog.t;
  anomaly_logs : list AnomalyLogRecord.t;
  now : Z;
  faults : Call -> nat -> bool;
  ticks : nat;
  next_key : nat;
  trace : list Event
}.

Definition emit (e : Event) (w : World) : World :=
  mkWorld (test_orders w) (test_users w) (audit_logs w) (anomaly_logs w)
          (now w) (faults w) (ticks w) (next_key w) (trace w ++ [e]).

Definition tick (w : World) : World :=
  mkWorld (test_orders w) (test_users w) (audit_logs w) (anomaly_logs w)
          (now w) (faults w) (S (ticks w)) (next_key w) (trace w).

Definition insert_anomaly (d : AnomalyLogRecord.CreateInput) (w : World) : World :=
  mkWorld (test_orders w) (test_users w) (audit_logs w)
          (anomaly_logs w ++ [AnomalyLogRecord.row (next_key w) d])
          (now w) (faults w) (ticks w) (S (next_key w)) (trace w).

(** ** Asynchronous computations *)

Inductive Outcome (A : Type) :=
| Resolved (a : A)
| Rejected.
Arguments Resolved {A} a.
Arguments Rejected {A}.

Definition Async (A : Type) : Type := World -> Outcome A * World.

#[global] Instance Async_ret : MRet Async :=
  fun A a w => (Resolved a, w).

#[global] Instance Async_bind : MBind Async :=
  fun A B f m w =>
    match m w with
    | (Resolved a, w') => f a w'
    | (Rejected, w') => (Rejected, w')
    end.

(** [try { body } catch (error) { handler }] *)
Definition try_catch {A} (body handler : Async A) : Async A :=
  fun w =>
    match body w with
    | (Resolved a, w') => (Resolved a, w')
    | (Rejected, w') => handler w'
    end.

(** [this.logger.log/warn/error] *)
Definition logger (l : LogLine) : Async unit :=
  fun w => (Resolved tt, emit (Logged l) w).

(** [Date.now()] *)
Definition Date_now : Async Z :=
  fun w => (Resolved (now w), w).

(** An awaited call [c] on a collaborator: it rejects when the oracle says
    so, and otherwise resolves with [result] after its [effect] on the
    store. *)
Definition await {A} (c : Call) (result : World -> A)
           (effect : World -> World) : Async A :=
  fun w =>
    if faults w c (ticks w)
    then (Rejected, emit (Called c false) (tick w))
    else (Resolved (result w), emit (Called c true) (effect (tick w))).

(** [for (const x of xs) { await body(x) }] *)
Fixpoint for_of {A} (xs : list A) (body : A -> Async unit) : Async unit :=
  match xs with
  | [] => mret tt
  | x :: rest => body x;; for_of rest body
  end.

(** [await Promise.all(ps)]: every computation of [ps] is started and runs
    on, whatever the others do; the result rejects when one of them does.
    The computations are run one after the other, in the order of the
    array: the schedule in which each one finishes before the next is
    resumed. *)
Fixpoint Promise_all (ps : list (Async unit)) : Async unit :=
  match ps with
  | [] => mret tt
  | p :: rest =>
      fun w =>
        let '(r, w1) := p w in
        let '(r', w2) := Promise_all rest w1 in
        (match r with Resolved _ => r' | Rejected => Rejected end, w2)
  end.

(** ** JavaScript and SQL helpers *)

(** [x || 0] for a number or NULL [x]. *)
Definition or_zero (x : option Q) : Q :=
  match x with Some q => q | None => 0%Q end.

(** [a > b] on numbers. *)
Definition Qgtb (a b : Q) : bool := negb (Qle_bool a b).

(** Truthiness of a string: every string but the empty one. *)
Definition truthy (s : string) : bool := negb (String.eqb s "").

(** Prisma's [contains]: the needle occurs in the string. *)
Fixpoint contains (needle s : string) : bool :=
  String.prefix needle s ||
  match s with
  | EmptyString => false
  | String _ rest => contains needle rest
  end.

Definition Qsum (l : list Q) : Q := fold_right Qplus 0%Q l.

(** SQL [AVG] and [MAX]: NULL over no rows. *)
Definition AVG (l : list Q) : option Q :=
  match l with
  | [] => None
  | _ => Some (Qsum l / inject_Z (Z.of_nat (length l)))%Q
  end.

Definition Qmax (a b : Q) : Q := if Qle_bool a b then b else a.

Definition MAX (l : list Q) : option Q :=
  match l with
  | [] => None
  | x :: rest => Some (fold_left Qmax rest x)
  end.

Definition minutes (n : Z) : Z := n * 60 * 1000.
Definition hours (n : Z) : Z := n * 60 * 60 * 1000.
Definition days (n : Z) : Z := n * 24 * 60 * 60 * 1000.

Definition all_channels : list string := ["email"; "slack"; "in-app"].

(** ** getAdministrators *)

Definition is_administrator (role : string) (u : TestUser.t) : bool :=
  (String.eqb (TestUser.role u) "admin"
   || String.eqb (TestUser.role u) role
   || String.eqb (TestUser.role u) "super_admin")
  && TestUser.is_active u.

Definition administrators (role : string) (w : World) : list TestUser.t :=
  List.filter (is_administrator role) (test_users w).

Definition getAdministrators (role : string) : Async (list string) :=
  try_catch
    (admins ← await (testUser_findMany role) (administrators role) id;
     mret (map TestUser.id admins))
    (logger error_get_administrators;;
     mret []).

(** ** logAnomaly *)

Definition logAnomaly (type : string) (severity : Severity)
           (userId : option string) (details : Details) : Async unit :=
  try_catch
    (detected_at ← Date_now;
     let data := AnomalyLogRecord.mkInput type severity userId details
                                          detected_at false in
     await (anomalyLogRecord_create data) (fun _ => tt) (insert_anomaly data))
    (logger error_log_anomaly).

(** [await this.notificationService.sendNotification(...)], as every
    detector calls it: all channels, and [timestamp] read when the payload
    is built. *)
Definition notify (recipients : list string) (sev : Severity) (type : string)
           (user : option string) (d : Details) : Async unit :=
  timestamp ← Date_now;
  await (sendNotification all_channels recipients
           {| severity := sev;
              metadata := {| anomalyType := type; userId := user;
                             fields := d; timestamp := timestamp |} |})
        (fun _ => tt) id.

(** ** detectHighValuePurchases *)

Definition recentPurchases (gte : Z) (w : World) : list TestOrder.t :=
  List.filter
    (fun o => (gte <=? TestOrder.created_at o)
              && String.eqb (TestOrder.status o) "pending")
    (test_orders w).

Record UserStats := { avg_amount : option Q; max_amount : option Q }.

(** The rows the raw query aggregates. *)
Definition approved_totals (user_id : string) (from to : Z) (w : World) : list Q :=
  map TestOrder.total_amount
    (List.filter
       (fun o => String.eqb (TestOrder.user_id o) user_id
                 && (from <=? TestOrder.created_at o)
                 && (TestOrder.created_at o <? to)
                 && String.eqb (TestOrder.status o) "approved")
       (test_orders w)).

(** An aggregate without GROUP BY answers with one row. *)
Definition userStats_query (user_id : string) (from to : Z) (w : World)
  : list UserStats :=
  let totals := approved_totals user_id from to w in
  [ {| avg_amount := AVG totals; max_amount := MAX totals |} ].

Definition is_high_value (total_amount avgAmount maxAmount : Q) : bool :=
  Qgtb total_amount (avgAmount * 3) && Qgtb total_amount (maxAmount * (3 # 2)).

(** The body of the loop over [recentPurchases].  [purchase.user] is the
    row the foreign key "test_orders_user_id_fkey" guarantees; its
    [username] only enters the text of the log line and of the message. *)
Definition high_value_purchase (purchase : TestOrder.t) : Async unit :=
  from ← Date_now;
  to ← Date_now;
  userStats ← await (queryRaw_userStats (TestOrder.user_id purchase)
                                        (from - days 90) (to - hours 1))
                    (userStats_query (TestOrder.user_id purchase)
                                     (from - days 90) (to - hours 1))
                    id;
  let avgAmount := or_zero (head userStats ≫= avg_amount) in
  let maxAmount := or_zero (head userStats ≫= max_amount) in
  if is_high_value (TestOrder.total_amount purchase) avgAmount maxAmount then
    logger (warn_high_value purchase avgAmount);;
    admins ← getAdministrators "purchase_admin";
    let details := HighPurchaseDetails (TestOrder.id purchase)
                     (TestOrder.total_amount purchase) avgAmount in
    notify admins high "high_purchase" (Some (TestOrder.user_id purchase)) details;;
    logAnomaly "high_purchase" high (Some (TestOrder.user_id purchase)) details
  else mret tt.

Definition detectHighValuePurchases : Async unit :=
  logger log_high_value_started;;
  try_catch
    (since ← Date_now;
     recent ← await (testOrder_findMany (since - hours 1))
                    (recentPurchases (since - hours 1)) id;
     for_of recent high_value_purchase)
    (logger error_high_value).

(** ** detectAuthenticationFailures *)

Module LoginGroup.
(** A row of the [groupBy] answer. *)
Record t := mk {
  ip_address : string;
  user_id : option string;
  _count : nat
}.
End LoginGroup.

Definition failed_login (gte : Z) (e : AuditLog.t) : bool :=
  contains "login" (AuditLog.action e)
  && (400 <=? AuditLog.response_status e)
  && (gte <=? AuditLog.timestamp e).

Definition same_group (ip : string) (user : option string) (g : LoginGroup.t) : bool :=
  bool_decide (LoginGroup.ip_address g = ip ∧ LoginGroup.user_id g = user).

(** One more row for the group of [(ip, user)]; SQL groups NULL user ids
    together. *)
Fixpoint count_in (ip : string) (user : option string) (gs : list LoginGroup.t)
  : list LoginGroup.t :=
  match gs with
  | [] => [LoginGroup.mk ip user 1]
  | g :: rest =>
      if same_group ip user g
      then LoginGroup.mk ip user (S (LoginGroup._count g)) :: rest
      else g :: count_in ip user rest
  end.

Definition group_by (rows : list AuditLog.t) : list LoginGroup.t :=
  fold_left (fun gs e => count_in (AuditLog.ip_address e) (AuditLog.user_id e) gs)
            rows [].

(** [groupBy] with [where] and [having: _count > 5]. *)
Definition failedLogins_query (gte : Z) (w : World) : list LoginGroup.t :=
  List.filter (fun g => (5 <? LoginGroup._count g)%nat)
              (group_by (List.filter (failed_login gte) (audit_logs w))).

Definition auth_failure (item : LoginGroup.t) : Async unit :=
  logger (warn_auth_failures (LoginGroup.ip_address item) (LoginGroup.user_id item)
                             (LoginGroup._count item));;
  admins ← getAdministrators "security_admin";
  let details := AuthFailureDetails (LoginGroup.ip_address item)
                                    (LoginGroup._count item) in
  notify admins high "auth_failure" (LoginGroup.user_id item) details;;
  logAnomaly "auth_failure" high (LoginGroup.user_id item) details.

Definition detectAuthenticationFailures : Async unit :=
  logger log_auth_failures_started;;
  try_catch
    (since ← Date_now;
     failedLogins ← await (auditLog_groupBy (since - minutes 30))
                          (failedLogins_query (since - minutes 30)) id;
     for_of failedLogins auth_failure)
    (logger error_auth_failures).

(** ** detectUnusualAccess *)

(** [orderBy: { timestamp: 'desc' }] *)
Definition not_older (a b : AuditLog.t) : Prop :=
  AuditLog.timestamp b <= AuditLog.timestamp a.

#[global] Instance not_older_dec : RelDecision not_older :=
  fun a b => Z_le_dec (AuditLog.timestamp b) (AuditLog.timestamp a).

Definition newest_first (rows : list AuditLog.t) : list AuditLog.t :=
  merge_sort not_older rows.

Definition recentLogs_query (gte : Z) (w : World) : list AuditLog.t :=
  newest_first
    (List.filter
       (fun e => (gte <=? AuditLog.timestamp e)
                 && bool_decide (AuditLog.user_id e ≠ None))
       (audit_logs w)).

Definition pastUserActivity_query (userId : string) (gte lt : Z) (w : World)
  : list AuditLog.t :=
  newest_first
    (List.filter
       (fun e => bool_decide (AuditLog.user_id e = Some userId)
                 && (gte <=? AuditLog.timestamp e)
                 && (AuditLog.timestamp e <? lt))
       (audit_logs w)).

(** A JavaScript [Set<string>] that is later listed with [Array.from]: the
    members in insertion order. *)
Definition Set_has (x : string) (s : list string) : bool :=
  existsb (String.eqb x) s.

Definition Set_add (x : string) (s : list string) : list string :=
  if Set_has x s then s else s ++ [x].

Record UserAccess := {
  resources : list string;
  ipAddresses : list string;
  timestamps : list Z
}.

(** A JavaScript [Map<string, UserAccess>]: the entries in insertion order. *)
Definition Map_has (k : string) (m : list (string * UserAccess)) : bool :=
  existsb (fun e => String.eqb (fst e) k) m.

Definition Map_alter (k : string) (f : UserAccess -> UserAccess)
           (m : list (string * UserAccess)) : list (string * UserAccess) :=
  map (fun e => if String.eqb (fst e) k then (fst e, f (snd e)) else e) m.

(** A fresh entry of [userAccessMap]. *)
Definition no_access : UserAccess :=
  {| resources := []; ipAddresses := []; timestamps := [] |}.

(** [resources.add(log.resource); ipAddresses.add(log.ip_address);
    timestamps.push(log.timestamp)] on the entry of the user. *)
Definition add_access (log : AuditLog.t) (a : UserAccess) : UserAccess :=
  {| resources := Set_add (AuditLog.resource log) (resources a);
     ipAddresses := Set_add (AuditLog.ip_address log) (ipAddresses a);
     timestamps := timestamps a ++ [AuditLog.timestamp log] |}.

(** The body of the loop over [recentLogs]; a log without user id, or with
    the empty one, is skipped ([if (!log.user_id) continue]). *)
Definition note_access (m : list (string * UserAccess)) (log : AuditLog.t)
  : list (string * UserAccess) :=
  match AuditLog.user_id log with
  | None => m
  | Some user_id =>
      if truthy user_id then
        let m1 := if Map_has user_id m then m else m ++ [(user_id, no_access)] in
        Map_alter user_id (add_access log) m1
      else m
  end.

Definition userAccessMap (recentLogs : list AuditLog.t) : list (string * UserAccess) :=
  fold_left note_access recentLogs [].

(** The loop over [pastUserActivity]: [commonResources] is only asked for
    membership, [ipFrequency] only looked up.  [ipFrequency] is a plain
    object used as a map from addresses to counts; an "ip_address" is taken
    not to be the name of a property of [Object.prototype]. *)
Definition commonResources (past : list AuditLog.t) : gset string :=
  fold_left
    (fun s log => if truthy (AuditLog.resource log)
                  then s ∪ {[AuditLog.resource log]} else s)
    past ∅.

Definition ipFrequency (past : list AuditLog.t) : gmap string nat :=
  fold_left
    (fun m log =>
       if truthy (AuditLog.ip_address log)
       then <[AuditLog.ip_address log :=
                (default 0 (m !! AuditLog.ip_address log) + 1)%nat]> m
       else m)
    past ∅.

(** [!ipFrequency[ip]]: the property is missing, or 0. *)
Definition never_seen (freq : gmap string nat) (ip : string) : bool :=
  match freq !! ip with
  | None | Some O => true
  | Some (S _) => false
  end.

Definition unusualResources_of (past : list AuditLog.t) (recentAccess : UserAccess)
  : list string :=
  List.filter (fun resource => negb (bool_decide (resource ∈ commonResources past)))
              (resources recentAccess).

Definition unusualIps_of (past : list AuditLog.t) (recentAccess : UserAccess)
  : list string :=
  List.filter (never_seen (ipFrequency past)) (ipAddresses recentAccess).

Definition is_unusual (unusualResources unusualIps : list string) : bool :=
  (0 <? length unusualResources)%nat || (0 <? length unusualIps)%nat.

Definition findUnique_query (userId : string) (w : World) : option TestUser.t :=
  List.find (fun u => String.eqb (TestUser.id u) userId) (test_users w).

Definition unusual_access (entry : string * UserAccess) : Async unit :=
  let '(userId, recentAccess) := entry in
  gte ← Date_now;
  lt ← Date_now;
  pastUserActivity ← await (auditLog_findMany_past userId (gte - days 30) (lt - hours 2))
                           (pastUserActivity_query userId (gte - days 30) (lt - hours 2))
                           id;
  let unusualResources := unusualResources_of pastUserActivity recentAccess in
  let unusualIps := unusualIps_of pastUserActivity recentAccess in
  if is_unusual unusualResources unusualIps then
    user ← await (testUser_findUnique userId) (findUnique_query userId) id;
    logger (warn_unusual_access userId);;
    admins ← getAdministrators "security_admin";
    let details := UnusualAccessDetails (TestUser.username <$> user)
                                        unusualResources unusualIps in
    notify admins medium "unusual_access" (Some userId) details;;
    logAnomaly "unusual_access" medium (Some userId) details
  else mret tt.

Definition detectUnusualAccess : Async unit :=
  logger log_unusual_access_started;;
  try_catch
    (since ← Date_now;
     recentLogs ← await (auditLog_findMany_recent (since - hours 2))
                        (recentLogs_query (since - hours 2)) id;
     for_of (userAccessMap recentLogs) unusual_access)
    (logger error_unusual_access).

(** ** detectAnomalies *)

Definition detectAnomalies : Async unit :=
  logger log_sweep_started;;
  Promise_all [detectHighValuePurchases;
               detectAuthenticationFailures;
               detectUnusualAccess];;
  logger log_sweep_completed.

(** ** Sample stores *)

Definition no_faults : Call -> nat -> bool := fun _ _ => false.
Definition all_faults : Call -> nat -> bool := fun _ _ => true.

Definition t0 : Z := 1700000000000.

(** Primary keys are UUIDs; the samples differ in their last digits. *)
Definition uuid (tail : string) : string := "00000000-0000-4000-8000-0000000" +:+ tail.

Definition alice_id : string := uuid "00a11".
Definition bob_id : string := uuid "00b0b".

Definition alice : TestUser.t :=
  TestUser.mk alice_id "alice" "alice@example.com" "buyer" true.
Definition root : TestUser.t :=
  TestUser.mk (uuid "000aa") "root" "root@example.com" "admin" true.
Definition pam : TestUser.t :=
  TestUser.mk (uuid "000ab") "pam" "pam@example.com" "purchase_admin" true.
Definition old_admin : TestUser.t :=
  TestUser.mk (uuid "000ac") "old" "old@example.com" "admin" false.

Definition order (id user status : string) (amount : Q) (at_ : Z) : TestOrder.t :=
  TestOrder.mk (uuid id) id user status amount at_.

Definition event (id : string) (user : option string) (action resource ip : string)
           (status at_ : Z) : AuditLog.t :=
  AuditLog.mk (uuid id) user action resource ip status at_.

Definition world0 (orders : list TestOrder.t) (logs : list AuditLog.t)
           (f : Call -> nat -> bool) : World :=
  mkWorld orders [alice; root; pam; old_admin] logs [] t0 f 0 0 [].

Definition o1 := order "00101" alice_id "approved" 1000 (t0 - days 3).
Definition o2 := order "00102" alice_id "approved" 1500 (t0 - days 2).
Definition o3 := order "00103" alice_id "pending" 4600 (t0 - minutes 5).
Definition o4 := order "00104" alice_id "pending" 2200 (t0 - minutes 4).
Definition o5 := order "00105" bob_id "pending" 1 (t0 - minutes 3).

Definition sample_orders : list TestOrder.t := [o1; o2; o3; o4; o5].

Definition sample_logs : list AuditLog.t :=
  [event "e0001" (Some alice_id) "GET" "orders" "10.0.0.1" 200 (t0 - days 1);
   event "e0002" (Some alice_id) "GET" "orders" "10.0.0.1" 200 (t0 - minutes 3);
   event "e0003" (Some alice_id) "GET" "vendors" "10.0.0.2" 200 (t0 - minutes 2);
   event "e0004" None "auth/login" "auth" "10.9.9.9" 401 (t0 - minutes 9);
   event "e0005" None "auth/login" "auth" "10.9.9.9" 401 (t0 - minutes 8);
   event "e0006" None "auth/login" "auth" "10.9.9.9" 401 (t0 - minutes 7);
   event "e0007" None "auth/login" "auth" "10.9.9.9" 401 (t0 - minutes 6);
   event "e0008" None "auth/login" "auth" "10.9.9.9" 401 (t0 - minutes 5);
   event "e0009" None "auth/login" "auth" "10.9.9.9" 401 (t0 - minutes 4)].

(** A store on which the detectors have findings, and no call rejects. *)
Definition w_test : World := world0 sample_orders sample_logs no_faults.

(** The same store, with every notification rejecting. *)
Definition notifications_fail : Call -> nat -> bool :=
  fun c _ => match c with sendNotification _ _ _ => true | _ => false end.

Definition w_unnotified : World := world0 sample_orders sample_logs notifications_fail.

(** The same store, with the query for the recent orders rejecting. *)
Definition orders_fail : Call -> nat -> bool :=
  fun c _ => match c with testOrder_findMany _ => true | _ => false end.

Definition w_orders_down : World := world0 sample_orders sample_logs orders_fail.

(** The same store, with every call rejecting. *)
Definition w_all_down : World := world0 sample_orders sample_logs all_faults.

(** A store with empty names: a user whose only resource, past and recent,
    is the empty name, and an event whose user id is the empty string. *)
Definition h1 := event "e00a1" (Some bob_id) "GET" "" "10.0.0.5" 200 (t0 - days 1).
Definition r1 := event "e00b1" (Some bob_id) "GET" "" "10.0.0.5" 200 (t0 - minutes 10).
Definition r2 := event "e00b2" (Some "") "GET" "vendors" "10.0.0.7" 200 (t0 - minutes 5).

Definition w_names : World := world0 [] [h1; r1; r2] no_faults.

(** ** Runs

    What a computation did is the list of events it appended to the
    trace; the world it leaves is the world it started from with these
    events replayed. *)

Definition effect_of (c : Call) : World -> World :=
  match c with
  | anomalyLogRecord_create data => insert_anomaly data
  | _ => id
  end.

Definition apply_event (w : World) (e : Event) : World :=
  match e with
  | Logged _ => emit e w
  | Called c true => emit e (effect_of c (tick w))
  | Called c false => emit e (tick w)
  end.

Definition replay (evs : list Event) (w : World) : World :=
  fold_left apply_event evs w.

Definition runs {A} (m : Async A) (w : World) (r : Outcome A) (evs : list Event) : Prop :=
  m w = (r, replay evs w).

(** The events a computation appends to the trace of [w]. *)
Definition emitted {A} (m : Async A) (w : World) : list Event :=
  drop (length (trace w)) (trace (snd (m w))).

(** The rows a computation appends to "anomaly_logs". *)
Definition recorded {A} (m : Async A) (w : World) : list AnomalyLogRecord.t :=
  drop (length (anomaly_logs w)) (anomaly_logs (snd (m w))).

Definition is_warning (l : LogLine) : bool :=
  match l with
  | warn_high_value _ _ | warn_auth_failures _ _ _ | warn_unusual_access _ => true
  | _ => false
  end.

Definition warning_of (e : Event) : list LogLine :=
  match e with
  | Logged l => if is_warning l then [l] else []
  | Called _ _ => []
  end.

Definition created_by (e : Event) : list AnomalyLogRecord.CreateInput :=
  match e with
  | Called (anomalyLogRecord_create data) true => [data]
  | _ => []
  end.

Definition warnings (evs : list Event) : list LogLine := flat_map warning_of evs.

Definition created (evs : list Event) : list AnomalyLogRecord.CreateInput :=
  flat_map created_by evs.

Fixpoint rows_from (key : nat) (ds : list AnomalyLogRecord.CreateInput)
  : list AnomalyLogRecord.t :=
  match ds with
  | [] => []
  | d :: rest => AnomalyLogRecord.row key d :: rows_from (S key) rest
  end.

Definition input_content (d : AnomalyLogRecord.CreateInput)
  : string * Severity * option string * Details * Z :=
  (AnomalyLogRecord.in_type d, AnomalyLogRecord.in_severity d,
   AnomalyLogRecord.in_user_id d, AnomalyLogRecord.in_details d,
   AnomalyLogRecord.in_detected_at d).

(** The part of the world no computation of the service changes. *)
Definition same_store (w w' : World) : Prop :=
  test_orders w' = test_orders w /\ test_users w' = test_users w /\
  audit_logs w' = audit_logs w /\ now w' = now w /\ faults w' = faults w.

(** [yields m w a ws fs]: from [w], [m] resolves with [a], having logged the
    warnings [ws] and inserted the findings [fs]. *)
Definition yields {A} (m : Async A) (w : World) (a : A) (ws : list LogLine)
           (fs : list AnomalyLogRecord.CreateInput) : Prop :=
  exists evs, runs m w (Resolved a) evs /\ warnings evs = ws /\ created evs = fs.

(** ** Detectors and their calls *)

Inductive Detector := HighValuePurchases | AuthenticationFailures | UnusualAccess.

#[global] Instance Detector_eq_dec : EqDecision Detector.
Proof. solve_decision. Defined.

Definition detector_of_type (type : string) : option Detector :=
  if String.eqb type "high_purchase" then Some HighValuePurchases
  else if String.eqb type "auth_failure" then Some AuthenticationFailures
  else if String.eqb type "unusual_access" then Some UnusualAccess
  else None.

(** The detector a call is made by.  The administrator lookup is shared,
    and its failure stays inside [getAdministrators]. *)
Definition owner (c : Call) : option Detector :=
  match c with
  | testOrder_findMany _ | queryRaw_userStats _ _ _ => Some HighValuePurchases
  | auditLog_groupBy _ => Some AuthenticationFailures
  | auditLog_findMany_recent _ | auditLog_findMany_past _ _ _
  | testUser_findUnique _ => Some UnusualAccess
  | testUser_findMany _ => None
  | sendNotification _ _ payload => detector_of_type (anomalyType (metadata payload))
  | anomalyLogRecord_create data => detector_of_type (AnomalyLogRecord.in_type data)
  end.

(** No call of detector [d], the administrator lookup apart, rejects. *)
Definition reliable (d : Detector) (w : World) : Prop :=
  forall c n, owner c = Some d -> faults w c n = false.

(** The finding [logAnomaly] inserts from [w]. *)
Definition finding (type : string) (sev : Severity) (user : option string)
           (details : Details) (w : World) : AnomalyLogRecord.CreateInput :=
  AnomalyLogRecord.mkInput type sev user details (now w) false.

(** ** What the high-value detector is to find *)

Definition baseline_totals (w : World) (user_id : string) : list Q :=
  approved_totals user_id (now w - days 90) (now w - hours 1) w.

Definition baseline_average (w : World) (user_id : string) : Q :=
  or_zero (AVG (baseline_totals w user_id)).

Definition baseline_maximum (w : World) (user_id : string) : Q :=
  or_zero (MAX (baseline_totals w user_id)).

Definition exceeds_baseline (w : World) (o : TestOrder.t) : bool :=
  is_high_value (TestOrder.total_amount o)
                (baseline_average w (TestOrder.user_id o))
                (baseline_maximum w (TestOrder.user_id o)).

Definition high_value_orders (w : World) : list TestOrder.t :=
  List.filter (exceeds_baseline w) (recentPurchases (now w - hours 1) w).

Definition high_value_warning (w : World) (o : TestOrder.t) : LogLine :=
  warn_high_value o (baseline_average w (TestOrder.user_id o)).

Definition high_value_finding (w : World) (o : TestOrder.t)
  : AnomalyLogRecord.CreateInput :=
  finding "high_purchase" high (Some (TestOrder.user_id o))
          (HighPurchaseDetails (TestOrder.id o) (TestOrder.total_amount o)
                               (baseline_average w (TestOrder.user_id o)))
          w.

(** A detector flags what it logs a warning for. *)
Definition flags {A} (m : Async A) (w : World) (l : LogLine) : Prop :=
  In (Logged l) (emitted m w).

(** ** The purchase baseline, in words

    The approved orders of a user created in the 90 days that end one hour
    before [now]. *)
Definition in_baseline (w : World) (user_id : string) (o : TestOrder.t) : Prop :=
  In o (test_orders w) /\ TestOrder.user_id o = user_id /\
  TestOrder.status o = "approved" /\
  now w - days 90 <= TestOrder.created_at o < now w - hours 1.

(** ** What the authentication-failure detector is to find *)

Definition auth_failure_warning (g : LoginGroup.t) : LogLine :=
  warn_auth_failures (LoginGroup.ip_address g) (LoginGroup.user_id g)
                     (LoginGroup._count g).

Definition auth_failure_finding (w : World) (g : LoginGroup.t)
  : AnomalyLogRecord.CreateInput :=
  finding "auth_failure" high (LoginGroup.user_id g)
          (AuthFailureDetails (LoginGroup.ip_address g) (LoginGroup._count g)) w.

Definition flagged_groups (w : World) : list LoginGroup.t :=
  failedLogins_query (now w - minutes 30) w.

(** A failed login of the trailing 30 minutes, in words. *)
Definition is_failed_login (w : World) (e : AuditLog.t) : Prop :=
  contains "login" (AuditLog.action e) = true
  /\ 400 <= AuditLog.response_status e
  /\ now w - minutes 30 <= AuditLog.timestamp e.

Definition in_group (ip : string) (user : option string) (e : AuditLog.t) : bool :=
  bool_decide (AuditLog.ip_address e = ip /\ AuditLog.user_id e = user).

(** The number of failed logins of the trailing 30 minutes from [ip] for
    [user] ([None]: no user id). *)
Definition failure_count (w : World) (ip : string) (user : option string) : nat :=
  length (List.filter (in_group ip user)
                      (List.filter (failed_login (now w - minutes 30)) (audit_logs w))).

Definition group_key (g : LoginGroup.t) : string * option string :=
  (LoginGroup.ip_address g, LoginGroup.user_id g).

Definition count_of (ip : string) (user : option string) (gs : list LoginGroup.t) : nat :=
  match List.find (same_group ip user) gs with
  | Some g => LoginGroup._count g
  | None => 0
  end.

(** ** What the unusual-access detector is to find *)

Definition past_of (w : World) (userId : string) : list AuditLog.t :=
  pastUserActivity_query userId (now w - days 30) (now w - hours 2) w.

Definition recent_entries (w : World) : list (string * UserAccess) :=
  userAccessMap (recentLogs_query (now w - hours 2) w).

Definition unusual_entry (w : World) (entry : string * UserAccess) : bool :=
  is_unusual (unusualResources_of (past_of w (fst entry)) (snd entry))
             (unusualIps_of (past_of w (fst entry)) (snd entry)).

Definition unusual_entries (w : World) : list (string * UserAccess) :=
  List.filter (unusual_entry w) (recent_entries w).

Definition unusual_access_warning (entry : string * UserAccess) : LogLine :=
  warn_unusual_access (fst entry).

Definition unusual_access_finding (w : World) (entry : string * UserAccess)
  : AnomalyLogRecord.CreateInput :=
  finding "unusual_access" medium (Some (fst entry))
          (UnusualAccessDetails
             (TestUser.username <$> findUnique_query (fst entry) w)
             (unusualResources_of (past_of w (fst entry)) (snd entry))
             (unusualIps_of (past_of w (fst entry)) (snd entry)))
          w.

(** [userAccessMap.get(k)] *)
Definition Map_get (k : string) (m : list (string * UserAccess)) : option UserAccess :=
  snd <$> List.find (fun e => String.eqb (fst e) k) m.

(** ** Recent and past activity, in words *)

(** [e] is an event of [userId] in the trailing 2 hours. *)
Definition recent_event (w : World) (userId : string) (e : AuditLog.t) : Prop :=
  In e (audit_logs w) /\ AuditLog.user_id e = Some userId
  /\ now w - hours 2 <= AuditLog.timestamp e.

(** [e] is an event of [userId] in the 30 days that end 2 hours ago. *)
Definition past_event (w : World) (userId : string) (e : AuditLog.t) : Prop :=
  In e (audit_logs w) /\ AuditLog.user_id e = Some userId
  /\ now w - days 30 <= AuditLog.timestamp e < now w - hours 2.

(** The historical resource set and the IPs of non-zero historical
    frequency, as the detector builds them: empty names are not counted. *)
Definition known_resource (w : World) (userId resource : string) : Prop :=
  resource <> "" /\ exists p, past_event w userId p /\ AuditLog.resource p = resource.

Definition known_ip (w : World) (userId ip : string) : Prop :=
  ip <> "" /\ exists p, past_event w userId p /\ AuditLog.ip_address p = ip.

Definition has_unusual_access (w : World) (userId : string) : Prop :=
  (exists e, recent_event w userId e /\ ~ known_resource w userId (AuditLog.resource e))
  \/ (exists e, recent_event w userId e /\ ~ known_ip w userId (AuditLog.ip_address e)).

(** The same with every historical resource and IP counted. *)
Definition in_history_resource (w : World) (userId resource : string) : Prop :=
  exists p, past_event w userId p /\ AuditLog.resource p = resource.

Definition in_history_ip (w : World) (userId ip : string) : Prop :=
  exists p, past_event w userId p /\ AuditLog.ip_address p = ip.

Definition outside_history (w : World) (userId : string) : Prop :=
  (exists e, recent_event w userId e
             /\ ~ in_history_resource w userId (AuditLog.resource e))
  \/ (exists e, recent_event w userId e
                /\ ~ in_history_ip w userId (AuditLog.ip_address e)).

(** ** Properties of every run

    [emits P m]: whatever rejects, the events [m] appends satisfy [P];
    [settles P m]: and [m] resolves. *)

Definition emits {A} (P : list Event -> Prop) (m : Async A) : Prop :=
  forall w, exists r evs, runs m w r evs /\ P evs.

Definition settles (P : list Event -> Prop) (m : Async unit) : Prop :=
  forall w, exists evs, runs m w (Resolved tt) evs /\ P evs.

(** [P] holds of a notification followed by the insert of the same
    finding, of the given type and severity. *)
Definition reports (P : list Event -> Prop) (type : string) (sev : Severity) : Prop :=
  forall recipients user details ts ok,
    P [Called (sendNotification all_channels recipients
                 {| severity := sev;
                    metadata := {| anomalyType := type; userId := user;
                                   fields := details; timestamp := ts |} |}) true;
       Called (anomalyLogRecord_create
                 (AnomalyLogRecord.mkInput type sev user details ts false)) ok].

(** ** What a sweep is to record *)

Definition expected_findings (d : Detector) (w : World)
  : list AnomalyLogRecord.CreateInput :=
  match d with
  | HighValuePurchases => map (high_value_finding w) (high_value_orders w)
  | AuthenticationFailures => map (auth_failure_finding w) (flagged_groups w)
  | UnusualAccess => map (unusual_access_finding w) (unusual_entries w)
  end.

Definition all_expected_findings (w : World) : list AnomalyLogRecord.CreateInput :=
  expected_findings HighValuePurchases w
  ++ expected_findings AuthenticationFailures w
  ++ expected_findings UnusualAccess w.

Definition type_of (d : Detector) : string :=
  match d with
  | HighValuePurchases => "high_purchase"
  | AuthenticationFailures => "auth_failure"
  | UnusualAccess => "unusual_access"
  end.

Definition detector (d : Detector) : Async unit :=
  match d with
  | HighValuePurchases => detectHighValuePurchases
  | AuthenticationFailures => detectAuthenticationFailures
  | UnusualAccess => detectUnusualAccess
  end.

(** The findings of one detector among those inserted. *)
Definition findings_of (d : Detector) (fs : list AnomalyLogRecord.CreateInput)
  : list AnomalyLogRecord.CreateInput :=
  List.filter (fun f => String.eqb (AnomalyLogRecord.in_type f) (type_of d)) fs.

Definition rows_of (d : Detector) (rows : list AnomalyLogRecord.t)
  : list AnomalyLogRecord.t :=
  List.filter (fun r => String.eqb (AnomalyLogRecord.type r) (type_of d)) rows.

(** ** Resolution state of a finding *)

Definition unresolved (r : AnomalyLogRecord.t) : Prop :=
  AnomalyLogRecord.is_resolved r = false
  /\ AnomalyLogRecord.resolved_at r = None
  /\ AnomalyLogRecord.resolved_by r = None
  /\ AnomalyLogRecord.notes r = None.

(** [resolved_at] and [resolved_by] are set if and only if the finding is
    resolved. *)
Definition resolution_invariant (r : AnomalyLogRecord.t) : Prop :=
  (is_Some (AnomalyLogRecord.resolved_at r) <-> AnomalyLogRecord.is_resolved r = true)
  /\ (is_Some (AnomalyLogRecord.resolved_by r) <-> AnomalyLogRecord.is_resolved r = true).

(** ** Notifying and recording, in the trace *)

Definition same_finding (p : NotificationPayload) (d : AnomalyLogRecord.CreateInput)
  : Prop :=
  anomalyType (metadata p) = AnomalyLogRecord.in_type d
  /\ severity p = AnomalyLogRecord.in_severity d
  /\ userId (metadata p) = AnomalyLogRecord.in_user_id d
  /\ fields (metadata p) = AnomalyLogRecord.in_details d.

(** Every notification comes after the insert of its finding has
    resolved. *)
Definition recorded_before_notified (evs : list Event) : Prop :=
  forall i channels recipients p ok,
    evs !! i = Some (Called (sendNotification channels recipients p) ok) ->
    exists j d, (j < i)%nat
                /\ evs !! j = Some (Called (anomalyLogRecord_create d) true)
                /\ same_finding p d.

(** Every insert comes right after the notification of its finding has
    resolved. *)
Definition notified_before_recorded (evs : list Event) : Prop :=
  forall i d ok,
    evs !! i = Some (Called (anomalyLogRecord_create d) ok) ->
    exists j channels recipients p,
      i = S j
      /\ evs !! j = Some (Called (sendNotification channels recipients p) true)
      /\ same_finding p d.

Definition only_notifications_fail (w : World) : Prop :=
  forall c n, faults w c n = true ->
              exists channels recipients p, c = sendNotification channels recipients p.

(** No notification failure leaves a finding of the sweep unrecorded. *)
Definition notification_failures_lose_nothing (w : World) : Prop :=
  only_notifications_fail w ->
  created (emitted detectAnomalies w) = all_expected_findings w.

(** ** Two claims as they are worded *)

(** The unusual-access rule with the whole history counted, for a user
    with an event in the trailing 2 hours. *)
Definition unusual_access_claim (w : World) (userId : string) : Prop :=
  reliable UnusualAccess w ->
  (exists e, recent_event w userId e) ->
  (flags detectUnusualAccess w (warn_unusual_access userId)
   <-> outside_history w userId).

(** Recording first, notifying afterwards, and nothing lost to a
    notification failure. *)
Definition notification_claim (w : World) : Prop :=
  recorded_before_notified (emitted detectAnomalies w)
  /\ notification_failures_lose_nothing w.

(** ** Runs that may stop early

    [attempts P m w a]: from [w], whatever rejects, the events of [m]
    satisfy [P], and when [m] resolves it does so with [a]. *)

Definition attempts {A} (P : list Event -> Prop) (m : Async A) (w : World) (a : A)
  : Prop :=
  exists r evs, runs m w r evs /\ P evs /\ (r = Rejected \/ r = Resolved a).

(** The warnings are among [W] and the findings inserted among [F]. *)
Definition within (W : list LogLine) (F : list AnomalyLogRecord.CreateInput)
           (evs : list Event) : Prop :=
  incl (warnings evs) W /\ incl (created evs) F.

(** ** What a sweep is to warn about *)

Definition expected_warnings (d : Detector) (w : World) : list LogLine :=
  match d with
  | HighValuePurchases => map (high_value_warning w) (high_value_orders w)
  | AuthenticationFailures => map auth_failure_warning (flagged_groups w)
  | UnusualAccess => map unusual_access_warning (unusual_entries w)
  end.

Definition all_expected_warnings (w : World) : list LogLine :=
  expected_warnings HighValuePurchases w
  ++ expected_warnings AuthenticationFailures w
  ++ expected_warnings UnusualAccess w.

(** The order is above its purchaser's baseline. *)
Definition above_baseline (w : World) (o : TestOrder.t) : Prop :=
  (baseline_average w (TestOrder.user_id o) * 3 < TestOrder.total_amount o)%Q
  /\ (baseline_maximum w (TestOrder.user_id o) * (3 # 2) < TestOrder.total_amount o)%Q.

(** A pending order of the last hour. *)
Definition candidate_order (w : World) (o : TestOrder.t) : Prop :=
  In o (test_orders w) /\ TestOrder.status o = "pending"
  /\ now w - hours 1 <= TestOrder.created_at o.

(** ** More sample stores *)

Definition o6 := order "00106" alice_id "pending" 9000 (t0 - minutes 2).

(** Two pending orders of one purchaser, above the baseline. *)
Definition w_two_orders : World := world0 [o1; o2; o3; o6] [] no_faults.

(** ** The detectors in another order *)

(** The sweep with the array of [Promise.all] in the order [ds]. *)
Definition sweep_in_order (ds : list Detector) : Async unit :=
  logger log_sweep_started;;
  Promise_all (map detector ds);;
  logger log_sweep_completed.

(** ** The sets a finding of unusual access reports, in words *)

(** [r] is a resource of a recent event of the user, outside the known
    resources. *)
Definition unusual_resource (w : World) (userId r : string) : Prop :=
  (exists e, recent_event w userId e /\ AuditLog.resource e = r)
  /\ ~ known_resource w userId r.

Definition unusual_ip (w : World) (userId ip : string) : Prop :=
  (exists e, recent_event w userId e /\ AuditLog.ip_address e = ip)
  /\ ~ known_ip w userId ip.

(** ** Observing a run

    [produces obs m w a xs]: from [w], [m] resolves with [a], and what
    [obs] sees of its events, in order, is [xs]. *)

Definition produces {A X} (obs : Event -> list X) (m : Async A) (w : World) (a : A)
           (xs : list X) : Prop :=
  exists evs, runs m w (Resolved a) evs /\ flat_map obs evs = xs.

(** The notifications that were sent: channels, recipients, payload. *)
Definition sent (e : Event) : list (list string * list string * NotificationPayload) :=
  match e with
  | Called (sendNotification channels recipients payload) true =>
      [(channels, recipients, payload)]
  | _ => []
  end.

(** The payload a detector builds for a finding. *)
Definition payload_of (d : AnomalyLogRecord.CreateInput) : NotificationPayload :=
  {| severity := AnomalyLogRecord.in_severity d;
     metadata := {| anomalyType := AnomalyLogRecord.in_type d;
                    userId := AnomalyLogRecord.in_user_id d;
                    fields := AnomalyLogRecord.in_details d;
                    timestamp := AnomalyLogRecord.in_detected_at d |} |}.

(** The role whose administrators a detector notifies. *)
Definition role_of (d : Detector) : string :=
  match d with
  | HighValuePurchases => "purchase_admin"
  | AuthenticationFailures | UnusualAccess => "security_admin"
  end.

(** The queries and the notifications of detector [d] do not reject; its
    inserts and the administrator lookups may. *)
Definition notifies_reliably (d : Detector) (w : World) : Prop :=
  forall c n, owner c = Some d ->
              (forall data, c <> anomalyLogRecord_create data) ->
              faults w c n = false.

(** No administrator lookup rejects. *)
Definition lookups_resolve (w : World) : Prop :=
  forall role n, faults w (testUser_findMany role) n = false.

(** The same store as [w_test], with every insert rejecting. *)
Definition inserts_fail : Call -> nat -> bool :=
  fun c _ => match c with anomalyLogRecord_create _ => true | _ => false end.

Definition w_unrecorded : World := world0 sample_orders sample_logs inserts_fail.

(** The payloads of the notifications that were sent. *)
Definition payload_sent (e : Event) : list NotificationPayload :=
  match e with
  | Called (sendNotification _ _ payload) true => [payload]
  | _ => []
  end.

(** A first event: a user seen in the last hours and never before. *)
Definition n1 : AuditLog.t :=
  event "e0301" (Some bob_id) "GET" "orders" "10.0.0.7" 200 (t0 - minutes 10).

Definition w_newcomer : World := world0 [] [n1] no_faults.

(** A store with nothing to examine: approved orders only, no event. *)
Definition w_idle : World := world0 [o1; o2] [] no_faults.

(** * Properties *)

(** ** Replaying events *)

Lemma replay_app evs1 evs2 w :
  replay (evs1 ++ evs2) w = replay evs2 (replay evs1 w).
Proof. apply fold_left_app. Qed.

Lemma apply_event_same_store w e : same_store w (apply_event w e).
Proof. destruct e as [l | [] []]; repeat split. Qed.

Lemma same_store_refl w : same_store w w.
Proof. repeat split. Qed.

Lemma same_store_trans w1 w2 w3 :
  same_store w1 w2 -> same_store w2 w3 -> same_store w1 w3.
Proof.
  unfold same_store. intros (-> & -> & -> & -> & ->) (-> & -> & -> & -> & ->).
  repeat split.
Qed.

(** Goals that follow from the equations of [same_store] hypotheses. *)
Ltac store_eq :=
  unfold same_store in *;
  repeat match goal with H : _ /\ _ |- _ => destruct H end;
  repeat split; congruence.

Lemma replay_same_store evs w : same_store w (replay evs w).
Proof.
  revert w. induction evs as [| e evs IH]; intros w; [apply same_store_refl |].
  eapply same_store_trans; [apply apply_event_same_store | apply IH].
Qed.

Lemma replay_trace evs w : trace (replay evs w) = trace w ++ evs.
Proof.
  revert w. induction evs as [| e evs IH]; intros w; simpl.
  - by rewrite app_nil_r.
  - rewrite IH. destruct e as [l | [] []]; simpl; by rewrite <- app_assoc.
Qed.

Lemma replay_next_key evs w :
  next_key (replay evs w) = (next_key w + length (created evs))%nat.
Proof.
  revert w. induction evs as [| e evs IH]; intros w; simpl; [lia |].
  rewrite IH, length_app.
  destruct e as [l | [] []]; simpl; lia.
Qed.

Lemma replay_anomaly_logs evs w :
  anomaly_logs (replay evs w)
  = anomaly_logs w ++ rows_from (next_key w) (created evs).
Proof.
  revert w. induction evs as [| e evs IH]; intros w; simpl.
  - by rewrite app_nil_r.
  - rewrite IH. destruct e as [l | [] []]; simpl; try done.
    by rewrite <- app_assoc.
Qed.

(** ** Rules for runs *)

Lemma runs_ret {A} (a : A) w : runs (mret a) w (Resolved a) [].
Proof. reflexivity. Qed.

Lemma runs_bind {A B} (m : Async A) (f : A -> Async B) w a evs1 r evs2 :
  runs m w (Resolved a) evs1 ->
  runs (f a) (replay evs1 w) r evs2 ->
  runs (m ≫= f) w r (evs1 ++ evs2).
Proof.
  unfold runs, mbind, Async_bind. intros -> ->. by rewrite replay_app.
Qed.

Lemma runs_bind_rejected {A B} (m : Async A) (f : A -> Async B) w evs :
  runs m w Rejected evs -> runs (m ≫= f) w Rejected evs.
Proof. unfold runs, mbind, Async_bind. by intros ->. Qed.

Lemma runs_try {A} (body handler : Async A) w a evs :
  runs body w (Resolved a) evs -> runs (try_catch body handler) w (Resolved a) evs.
Proof. unfold runs, try_catch. by intros ->. Qed.

Lemma runs_try_caught {A} (body handler : Async A) w evs1 r evs2 :
  runs body w Rejected evs1 ->
  runs handler (replay evs1 w) r evs2 ->
  runs (try_catch body handler) w r (evs1 ++ evs2).
Proof. unfold runs, try_catch. intros -> ->. by rewrite replay_app. Qed.

Lemma runs_logger l w : runs (logger l) w (Resolved tt) [Logged l].
Proof. reflexivity. Qed.

Lemma runs_Date_now w : runs Date_now w (Resolved (now w)) [].
Proof. reflexivity. Qed.

Lemma runs_await {A} c (result : World -> A) w :
  runs (await c result (effect_of c)) w
       (if faults w c (ticks w) then Rejected else Resolved (result w))
       [Called c (negb (faults w c (ticks w)))].
Proof. unfold runs, await. by destruct (faults w c (ticks w)). Qed.

Lemma runs_emitted {A} (m : Async A) w r evs : runs m w r evs -> emitted m w = evs.
Proof.
  unfold runs, emitted. intros ->. simpl.
  by rewrite replay_trace, drop_app_length.
Qed.

Lemma runs_recorded {A} (m : Async A) w r evs :
  runs m w r evs -> recorded m w = rows_from (next_key w) (created evs).
Proof.
  unfold runs, recorded. intros ->. simpl.
  by rewrite replay_anomaly_logs, drop_app_length.
Qed.

Lemma runs_anomaly_logs {A} (m : Async A) w r evs :
  runs m w r evs ->
  anomaly_logs (snd (m w)) = anomaly_logs w ++ rows_from (next_key w) (created evs).
Proof. unfold runs. intros ->. apply replay_anomaly_logs. Qed.

Lemma warnings_app evs1 evs2 : warnings (evs1 ++ evs2) = warnings evs1 ++ warnings evs2.
Proof. apply flat_map_app. Qed.

Lemma created_app evs1 evs2 : created (evs1 ++ evs2) = created evs1 ++ created evs2.
Proof. apply flat_map_app. Qed.

Lemma rows_from_content k ds :
  map AnomalyLogRecord.content (rows_from k ds) = map input_content ds.
Proof. revert k. induction ds as [| d ds IH]; intros k; simpl; by rewrite ?IH. Qed.

(** ** Rules for [yields] *)

Lemma yields_ret {A} (a : A) w : yields (mret a) w a [] [].
Proof. exists []. by split; [apply runs_ret |]. Qed.

Lemma yields_bind {A B} (m : Async A) (f : A -> Async B) w a b ws1 fs1 ws2 fs2 :
  yields m w a ws1 fs1 ->
  (forall w', same_store w w' -> yields (f a) w' b ws2 fs2) ->
  yields (m ≫= f) w b (ws1 ++ ws2) (fs1 ++ fs2).
Proof.
  intros (evs1 & Hm & <- & <-) Hf.
  destruct (Hf (replay evs1 w) (replay_same_store _ _)) as (evs2 & Hfa & <- & <-).
  exists (evs1 ++ evs2). split; [by eapply runs_bind |].
  by rewrite warnings_app, created_app.
Qed.

Lemma yields_try {A} (body handler : Async A) w a ws fs :
  yields body w a ws fs -> yields (try_catch body handler) w a ws fs.
Proof. intros (evs & H & <- & <-). exists evs. by split; [apply runs_try |]. Qed.

Lemma yields_logger l w :
  yields (logger l) w tt (if is_warning l then [l] else []) [].
Proof.
  exists [Logged l]. split; [apply runs_logger |]. simpl.
  by rewrite app_nil_r.
Qed.

Lemma yields_Date_now w : yields Date_now w (now w) [] [].
Proof. exists []. by split; [apply runs_Date_now |]. Qed.

Lemma yields_await {A} c (result : World -> A) w :
  faults w c (ticks w) = false ->
  yields (await c result (effect_of c)) w (result w) [] (created_by (Called c true)).
Proof.
  intros Hok. exists [Called c true]. split.
  - pose proof (runs_await c result w) as H. by rewrite Hok in H.
  - split; [done |]. unfold created. simpl. by rewrite app_nil_r.
Qed.

Lemma yields_for_of {A} (body : A -> Async unit) (W : A -> list LogLine)
      (F : A -> list AnomalyLogRecord.CreateInput) w0 :
  (forall x w, same_store w0 w -> yields (body x) w tt (W x) (F x)) ->
  forall xs w, same_store w0 w ->
    yields (for_of xs body) w tt (flat_map W xs) (flat_map F xs).
Proof.
  intros Hbody xs. induction xs as [| x xs IH]; intros w Hw; simpl.
  - apply yields_ret.
  - eapply yields_bind; [by apply Hbody |].
    intros w' Hw'. apply IH. by eapply same_store_trans.
Qed.

Lemma flat_map_filter {A B} (p : A -> bool) (f : A -> B) (l : list A) :
  flat_map (fun x => if p x then [f x] else []) l = map f (List.filter p l).
Proof.
  induction l as [| x l IH]; simpl; [done |].
  rewrite IH. by destruct (p x).
Qed.

Lemma flat_map_single {A B} (f : A -> B) (l : list A) :
  flat_map (fun x => [f x]) l = map f l.
Proof. induction l as [| x l IH]; simpl; by rewrite ?IH. Qed.

(** ** The helpers: getAdministrators, sendNotification, logAnomaly *)

Lemma yields_eq {A} (m : Async A) w a ws fs ws' fs' :
  yields m w a ws fs -> ws = ws' -> fs = fs' -> yields m w a ws' fs'.
Proof. by intros H <- <-. Qed.

Lemma getAdministrators_runs role w :
  let failed := faults w (testUser_findMany role) (ticks w) in
  runs (getAdministrators role) w
       (Resolved (if failed then [] else map TestUser.id (administrators role w)))
       (if failed
        then [Called (testUser_findMany role) false; Logged error_get_administrators]
        else [Called (testUser_findMany role) true]).
Proof.
  unfold runs, getAdministrators, try_catch, mbind, Async_bind, await. simpl.
  by destruct (faults w (testUser_findMany role) (ticks w)).
Qed.

Lemma logAnomaly_runs type sev user details w :
  let d := finding type sev user details w in
  runs (logAnomaly type sev user details) w (Resolved tt)
       (if faults w (anomalyLogRecord_create d) (ticks w)
        then [Called (anomalyLogRecord_create d) false; Logged error_log_anomaly]
        else [Called (anomalyLogRecord_create d) true]).
Proof.
  unfold runs, logAnomaly, try_catch, mbind, Async_bind, Date_now, await, finding.
  simpl. by destruct (faults w _ (ticks w)).
Qed.

Lemma getAdministrators_yields role w :
  exists ids, yields (getAdministrators role) w ids [] [].
Proof.
  eexists. eexists. split; [apply getAdministrators_runs |].
  by destruct (faults w (testUser_findMany role) (ticks w)).
Qed.

Lemma reliable_faults d w0 w c :
  reliable d w0 -> same_store w0 w -> owner c = Some d ->
  faults w c (ticks w) = false.
Proof. intros Hrel (_ & _ & _ & _ & ->) Hc. by apply Hrel. Qed.

Lemma notify_yields d w0 w recipients sev type user details :
  reliable d w0 -> same_store w0 w -> detector_of_type type = Some d ->
  yields (notify recipients sev type user details) w tt [] [].
Proof.
  intros Hrel Hw Hty. unfold notify.
  eapply yields_eq; [eapply yields_bind; [apply yields_Date_now |] | done ..].
  intros w' Hw'.
  apply (yields_await (sendNotification _ _ _) (fun _ => tt)).
  eapply reliable_faults; [done | by eapply same_store_trans | done].
Qed.

Lemma logAnomaly_yields d w0 w type sev user details :
  reliable d w0 -> same_store w0 w -> detector_of_type type = Some d ->
  yields (logAnomaly type sev user details) w tt [] [finding type sev user details w0].
Proof.
  intros Hrel Hw Hty. unfold logAnomaly. apply yields_try.
  eapply yields_eq; [eapply yields_bind; [apply yields_Date_now |] | done ..].
  intros w' Hw'.
  assert (now w = now w0) as -> by apply Hw.
  apply (yields_await (anomalyLogRecord_create _) (fun _ => tt)).
  eapply reliable_faults; [done | by eapply same_store_trans | done].
Qed.

(** Looking up the administrators, notifying them and recording the
    finding: the three steps every detector takes for what it found. *)
Lemma alert_yields d w0 w role sev type user details :
  reliable d w0 -> same_store w0 w -> detector_of_type type = Some d ->
  yields (admins ← getAdministrators role;
          notify admins sev type user details;;
          logAnomaly type sev user details)
         w tt [] [finding type sev user details w0].
Proof.
  intros Hrel Hw Hty.
  destruct (getAdministrators_yields role w) as [ids Hids].
  eapply yields_eq.
  { eapply yields_bind; [apply Hids |]. intros w1 Hw1.
    eapply yields_bind.
    - eapply notify_yields; [done | by eapply same_store_trans | done].
    - intros w2 Hw2. eapply logAnomaly_yields; [done | | done].
      eapply same_store_trans; [done |]. by eapply same_store_trans. }
  - done.
  - done.
Qed.

(** ** detectHighValuePurchases on a reliable store *)

Lemma recentPurchases_same_store w0 w gte :
  same_store w0 w -> recentPurchases gte w = recentPurchases gte w0.
Proof. intros (Ho & _). unfold recentPurchases. by rewrite Ho. Qed.

Lemma userStats_query_same_store w0 w user from to :
  same_store w0 w -> userStats_query user from to w = userStats_query user from to w0.
Proof.
  intros (Ho & _). unfold userStats_query, approved_totals. by rewrite Ho.
Qed.

Lemma high_value_purchase_yields w0 w o :
  reliable HighValuePurchases w0 -> same_store w0 w ->
  yields (high_value_purchase o) w tt
         (if exceeds_baseline w0 o then [high_value_warning w0 o] else [])
         (if exceeds_baseline w0 o then [high_value_finding w0 o] else []).
Proof.
  intros Hrel Hw. unfold high_value_purchase.
  eapply yields_eq.
  { eapply yields_bind; [apply yields_Date_now |]. intros w1 Hw1.
    eapply yields_bind; [apply yields_Date_now |]. intros w2 Hw2.
    assert (same_store w0 w2) as Hw02
        by (eapply same_store_trans; [done |]; by eapply same_store_trans).
    assert (now w = now w0) as -> by apply Hw.
    assert (now w1 = now w0) as ->
        by (destruct Hw as (_ & _ & _ & <- & _); apply Hw1).
    eapply yields_bind.
    { apply (yields_await (queryRaw_userStats _ _ _)).
      by eapply reliable_faults. }
    intros w3 Hw3. rewrite (userStats_query_same_store w0 w2) by done.
    change (is_high_value _ _ _) with (exceeds_baseline w0 o).
    change (or_zero _) with (baseline_average w0 (TestOrder.user_id o)).
    instantiate (1 := if exceeds_baseline w0 o then [high_value_finding w0 o] else []).
    instantiate (1 := if exceeds_baseline w0 o then [high_value_warning w0 o] else []).
    destruct (exceeds_baseline w0 o); [| apply yields_ret].
    eapply yields_eq.
    - eapply yields_bind; [apply yields_logger |]. intros w4 Hw4.
      eapply alert_yields; [done | | done].
      eapply same_store_trans; [done |]. by eapply same_store_trans.
    - done.
    - done. }
  - done.
  - done.
Qed.

Lemma detectHighValuePurchases_yields_from w0 w :
  reliable HighValuePurchases w0 -> same_store w0 w ->
  yields detectHighValuePurchases w tt
         (map (high_value_warning w0) (high_value_orders w0))
         (map (high_value_finding w0) (high_value_orders w0)).
Proof.
  intros Hrel Hw. unfold detectHighValuePurchases.
  eapply yields_eq.
  { eapply yields_bind; [apply yields_logger |]. intros w1 Hw1.
    apply yields_try.
    eapply yields_bind; [apply yields_Date_now |]. intros w2 Hw2.
    assert (same_store w0 w2) as Hw02 by store_eq.
    assert (now w1 = now w0) as -> by store_eq.
    eapply yields_bind.
    { apply (yields_await (testOrder_findMany _)). by eapply reliable_faults. }
    intros w3 Hw3. rewrite (recentPurchases_same_store w0 w2) by done.
    eapply (yields_for_of _ _ _ w0).
    - intros x w4 Hw4. by apply high_value_purchase_yields.
    - store_eq. }
  - simpl. apply flat_map_filter.
  - simpl. apply flat_map_filter.
Qed.

Lemma detectHighValuePurchases_yields w :
  reliable HighValuePurchases w ->
  yields detectHighValuePurchases w tt
         (map (high_value_warning w) (high_value_orders w))
         (map (high_value_finding w) (high_value_orders w)).
Proof. intros Hrel. by apply detectHighValuePurchases_yields_from, same_store_refl. Qed.

(** ** Numbers *)

Lemma Qgtb_lt a b : Qgtb a b = true <-> (b < a)%Q.
Proof.
  unfold Qgtb. rewrite negb_true_iff, <- not_true_iff_false, Qle_bool_iff.
  split; [apply Qnot_le_lt | apply Qlt_not_le].
Qed.

Lemma is_high_value_spec total avg max :
  is_high_value total avg max = true
  <-> (avg * 3 < total)%Q /\ (max * (3 # 2) < total)%Q.
Proof. unfold is_high_value. by rewrite andb_true_iff, !Qgtb_lt. Qed.

Lemma Qmax_upper a b : (a <= Qmax a b)%Q /\ (b <= Qmax a b)%Q.
Proof.
  unfold Qmax. destruct (Qle_bool a b) eqn:E.
  - apply Qle_bool_iff in E. split; [done | apply Qle_refl].
  - split; [apply Qle_refl |]. apply Qlt_le_weak, Qnot_le_lt.
    intros H. apply Qle_bool_iff in H. congruence.
Qed.

Lemma fold_Qmax_upper l x :
  (x <= fold_left Qmax l x)%Q /\ Forall (fun y => (y <= fold_left Qmax l x)%Q) l.
Proof.
  revert x. induction l as [| y l IH]; intros x; simpl.
  - split; [apply Qle_refl | constructor].
  - destruct (IH (Qmax x y)) as [H1 H2]. destruct (Qmax_upper x y) as [Hx Hy].
    split; [by eapply Qle_trans |].
    constructor; [by eapply Qle_trans | done].
Qed.

Lemma fold_Qmax_in l x : fold_left Qmax l x = x \/ In (fold_left Qmax l x) l.
Proof.
  revert x. induction l as [| y l IH]; intros x; simpl; [by left |].
  destruct (IH (Qmax x y)) as [-> | H]; [| by right; right].
  unfold Qmax. destruct (Qle_bool x y); [right; by left | by left].
Qed.

(** [MAX] answers with a greatest element of the rows. *)
Lemma MAX_spec l m :
  MAX l = Some m -> In m l /\ Forall (fun y => (y <= m)%Q) l.
Proof.
  destruct l as [| x l]; [done |]. simpl. intros [= <-].
  destruct (fold_Qmax_upper l x) as [H1 H2]. split.
  - destruct (fold_Qmax_in l x) as [-> | H]; [by left | by right].
  - by constructor.
Qed.

Lemma in_baseline_totals w user_id q :
  In q (baseline_totals w user_id)
  <-> exists o, in_baseline w user_id o /\ TestOrder.total_amount o = q.
Proof.
  unfold baseline_totals, approved_totals, in_baseline.
  rewrite in_map_iff. split.
  - intros (o & <- & Ho). apply filter_In in Ho as [Hin Ho].
    rewrite !andb_true_iff, !String.eqb_eq in Ho.
    exists o. repeat split; try tauto; lia.
  - intros (o & (Hin & Hu & Hs & Ht) & <-). exists o. split; [done |].
    apply filter_In. split; [done |].
    rewrite !andb_true_iff, !String.eqb_eq. repeat split; try done; lia.
Qed.

Lemma empty_baseline w user_id :
  (forall o, ~ in_baseline w user_id o) ->
  baseline_average w user_id = 0%Q /\ baseline_maximum w user_id = 0%Q.
Proof.
  intros Hnone. unfold baseline_average, baseline_maximum.
  destruct (baseline_totals w user_id) as [| q l] eqn:E; [done |].
  assert (In q (baseline_totals w user_id)) as Hq by (rewrite E; by left).
  apply in_baseline_totals in Hq as (o & Ho & _). by destruct (Hnone o).
Qed.

(** ** What the high-value detector flags *)

Lemma in_warnings l evs :
  is_warning l = true -> (In (Logged l) evs <-> In l (warnings evs)).
Proof.
  intros Hl. unfold warnings. rewrite in_flat_map. split.
  - intros H. exists (Logged l). split; [done |]. simpl. rewrite Hl. by left.
  - intros ([l' | c ok] & Hin & Hw); simpl in Hw; [| done].
    destruct (is_warning l'); [| done]. by destruct Hw as [-> | []].
Qed.

Lemma yields_flags {A} (m : Async A) w a ws fs l :
  yields m w a ws fs -> is_warning l = true -> (flags m w l <-> In l ws).
Proof.
  intros (evs & Hrun & <- & _) Hl. unfold flags.
  rewrite (runs_emitted _ _ _ _ Hrun). by apply in_warnings.
Qed.

Lemma in_recentPurchases w o :
  In o (recentPurchases (now w - hours 1) w)
  <-> In o (test_orders w) /\ TestOrder.status o = "pending"
      /\ now w - hours 1 <= TestOrder.created_at o.
Proof.
  unfold recentPurchases. rewrite filter_In, andb_true_iff, String.eqb_eq.
  rewrite Z.leb_le. tauto.
Qed.

(** C6.  A pending order of the last hour, with a positive amount, by a
    user without any approved order in the baseline window, is flagged. *)
Theorem cold_start_flagged w o :
  reliable HighValuePurchases w ->
  In o (test_orders w) ->
  TestOrder.status o = "pending" ->
  now w - hours 1 <= TestOrder.created_at o ->
  (forall o', ~ in_baseline w (TestOrder.user_id o) o') ->
  (0 < TestOrder.total_amount o)%Q ->
  baseline_average w (TestOrder.user_id o) = 0%Q
  /\ baseline_maximum w (TestOrder.user_id o) = 0%Q
  /\ flags detectHighValuePurchases w (warn_high_value o 0%Q)
  /\ In (high_value_finding w o)
        (created (emitted detectHighValuePurchases w)).
Proof.
  intros Hrel Hin Hst Hat Hnone Hpos.
  destruct (empty_baseline w _ Hnone) as [Havg Hmax].
  pose proof (detectHighValuePurchases_yields w Hrel) as Hy.
  assert (In o (high_value_orders w)) as Ho.
  { apply filter_In. split; [by apply in_recentPurchases |].
    unfold exceeds_baseline. rewrite Havg, Hmax.
    apply is_high_value_spec. split; by rewrite Qmult_0_l. }
  split; [done |]. split; [done |]. split.
  - apply (yields_flags _ _ _ _ _ _ Hy); [done |].
    apply in_map_iff. exists o. split; [| done].
    unfold high_value_warning. by rewrite Havg.
  - destruct Hy as (evs & Hrun & _ & Hc).
    rewrite (runs_emitted _ _ _ _ Hrun), Hc. by apply in_map.
Qed.

(** ** Failed logins *)

Lemma append_cons c a post : String c a +:+ post = String c (a +:+ post).
Proof. reflexivity. Qed.

Lemma prefix_spec a s : String.prefix a s = true <-> exists post, s = a +:+ post.
Proof.
  revert s. induction a as [| c a IH]; intros s.
  - destruct s; simpl; split; eauto.
  - destruct s as [| c' s]; simpl.
    + split; [done | by intros [? ?]].
    + destruct (Ascii.ascii_dec c c') as [<- | Hne].
      * rewrite IH. split; intros [post H]; exists post;
          rewrite append_cons in *; congruence.
      * split; [done |]. intros [post H]. rewrite append_cons in H. congruence.
Qed.

Lemma contains_nil needle : contains needle "" = String.prefix needle "" || false.
Proof. reflexivity. Qed.

Lemma contains_cons needle c s :
  contains needle (String c s)
  = String.prefix needle (String c s) || contains needle s.
Proof. reflexivity. Qed.

(** [contains needle s] holds exactly when [needle] occurs in [s]. *)
Lemma contains_spec needle s :
  contains needle s = true <-> exists pre post, s = pre +:+ needle +:+ post.
Proof.
  induction s as [| c s IH].
  - rewrite contains_nil, orb_true_iff, prefix_spec. split.
    + intros [[post H] | H]; [by exists "", post | done].
    + intros (pre & post & H). left. destruct pre; [by exists post | done].
  - rewrite contains_cons, orb_true_iff, prefix_spec, IH. split.
    + intros [[post H] | (pre & post & H)]; [by exists "", post |].
      exists (String c pre), post. by rewrite append_cons, H.
    + intros ([| c' pre] & post & H); [left; by exists post |].
      right. exists pre, post. rewrite append_cons in H. congruence.
Qed.

Lemma failed_login_spec w e :
  failed_login (now w - minutes 30) e = true <-> is_failed_login w e.
Proof.
  unfold failed_login, is_failed_login. rewrite !andb_true_iff, !Z.leb_le. tauto.
Qed.

(** [failure_count] counts the failed logins of the group. *)
Lemma failure_count_members w ip user e :
  In e (List.filter (in_group ip user)
          (List.filter (failed_login (now w - minutes 30)) (audit_logs w)))
  <-> In e (audit_logs w) /\ is_failed_login w e
      /\ AuditLog.ip_address e = ip /\ AuditLog.user_id e = user.
Proof.
  rewrite !filter_In, failed_login_spec. unfold in_group.
  rewrite bool_decide_eq_true. tauto.
Qed.

(** ** Grouping and counting *)

Lemma same_group_key ip user g :
  same_group ip user g = true <-> group_key g = (ip, user).
Proof.
  unfold same_group, group_key. rewrite bool_decide_eq_true.
  split; [by intros [-> ->] | by intros [= -> ->]].
Qed.

Lemma same_group_mk ip user ip' user' c :
  same_group ip user (LoginGroup.mk ip' user' c)
  = bool_decide (ip' = ip /\ user' = user).
Proof. reflexivity. Qed.

Lemma count_of_cons ip user g gs :
  count_of ip user (g :: gs)
  = if same_group ip user g then LoginGroup._count g else count_of ip user gs.
Proof. unfold count_of. simpl. by destruct (same_group ip user g). Qed.

Lemma count_of_count_in ip user ip' user' gs :
  count_of ip user (count_in ip' user' gs)
  = (count_of ip user gs
     + if bool_decide (ip' = ip /\ user' = user) then 1 else 0)%nat.
Proof.
  induction gs as [| g gs IH]; simpl.
  - rewrite count_of_cons, same_group_mk. by destruct (bool_decide _).
  - destruct (same_group ip' user' g) eqn:E'.
    + rewrite !count_of_cons, same_group_mk. simpl.
      apply same_group_key in E'.
      case_bool_decide as B.
      * destruct B as [<- <-].
        rewrite (proj2 (same_group_key ip' user' g) E'). lia.
      * destruct (same_group ip user g) eqn:E; [| lia].
        apply same_group_key in E. rewrite E in E'. injection E' as <- <-.
        by destruct B.
    + rewrite !count_of_cons.
      destruct (same_group ip user g) eqn:E; [| apply IH].
      case_bool_decide as B; [| lia].
      destruct B as [<- <-]. congruence.
Qed.

Lemma count_of_fold rows ip user gs :
  count_of ip user
    (fold_left (fun gs e => count_in (AuditLog.ip_address e) (AuditLog.user_id e) gs)
               rows gs)
  = (count_of ip user gs + length (List.filter (in_group ip user) rows))%nat.
Proof.
  revert gs. induction rows as [| e rows IH]; intros gs; simpl; [lia |].
  rewrite IH, count_of_count_in. unfold in_group.
  case_bool_decide; simpl; lia.
Qed.

Lemma count_of_group_by rows ip user :
  count_of ip user (group_by rows) = length (List.filter (in_group ip user) rows).
Proof. unfold group_by. by rewrite count_of_fold. Qed.

Lemma keys_count_in ip user gs :
  map group_key (count_in ip user gs)
  = if bool_decide ((ip, user) ∈ map group_key gs)
    then map group_key gs else map group_key gs ++ [(ip, user)].
Proof.
  induction gs as [| g gs IH]; simpl.
  - done.
  - destruct (same_group ip user g) eqn:E; simpl.
    + apply same_group_key in E.
      rewrite bool_decide_eq_true_2 by (rewrite E; apply list_elem_of_here).
      unfold group_key at 1. simpl. by rewrite <- E.
    + rewrite IH.
      assert (group_key g <> (ip, user)) as Hne.
      { intros H. apply same_group_key in H. congruence. }
      case_bool_decide as B.
      * by rewrite bool_decide_eq_true_2 by (by apply list_elem_of_further).
      * rewrite bool_decide_eq_false_2; [done |].
        intros [H | H]%elem_of_cons; [congruence | done].
Qed.

Lemma NoDup_count_in ip user gs :
  NoDup (map group_key gs) -> NoDup (map group_key (count_in ip user gs)).
Proof.
  intros H. rewrite keys_count_in. case_bool_decide as B; [done |].
  apply NoDup_app. split; [done |]. split; [| apply NoDup_singleton].
  intros k Hk ->%list_elem_of_singleton. done.
Qed.

Lemma NoDup_group_by rows : NoDup (map group_key (group_by rows)).
Proof.
  unfold group_by.
  assert (NoDup (map group_key [])) as H by constructor.
  revert H. generalize (@nil LoginGroup.t).
  induction rows as [| e rows IH]; intros gs H; simpl; [done |].
  by apply IH, NoDup_count_in.
Qed.

Lemma count_of_member gs g :
  NoDup (map group_key gs) -> In g gs ->
  count_of (LoginGroup.ip_address g) (LoginGroup.user_id g) gs = LoginGroup._count g.
Proof.
  induction gs as [| g0 gs IH]; simpl; [done |].
  intros [Hnotin Hnd]%NoDup_cons Hin. rewrite count_of_cons.
  destruct Hin as [-> | Hin].
  - by rewrite (proj2 (same_group_key _ _ g)).
  - destruct (same_group _ _ g0) eqn:E; [| by apply IH].
    apply same_group_key in E. destruct Hnotin. fold (group_key g) in E.
    rewrite E. apply list_elem_of_In. by apply in_map.
Qed.

Lemma member_of_count gs ip user :
  (0 < count_of ip user gs)%nat ->
  In (LoginGroup.mk ip user (count_of ip user gs)) gs.
Proof.
  unfold count_of. destruct (List.find _ gs) as [g |] eqn:E; [| lia].
  intros _. apply find_some in E as [Hin Hk].
  apply same_group_key in Hk. destruct g as [i u c].
  by injection Hk as -> ->.
Qed.

(** The groups the query answers with are those of more than 5 rows, each
    with the number of its rows. *)
Lemma in_flagged_groups w ip user c :
  In (LoginGroup.mk ip user c) (flagged_groups w)
  <-> c = failure_count w ip user /\ (5 < c)%nat.
Proof.
  unfold flagged_groups, failedLogins_query, failure_count.
  rewrite filter_In, <- count_of_group_by. simpl. rewrite Nat.ltb_lt.
  split.
  - intros [Hin Hc]. split; [| done].
    symmetry. apply (count_of_member _ _ (NoDup_group_by _) Hin).
  - intros [-> Hc]. split; [| done]. apply member_of_count. lia.
Qed.

(** ** detectAuthenticationFailures on a reliable store *)

Lemma failedLogins_query_same_store w0 w gte :
  same_store w0 w -> failedLogins_query gte w = failedLogins_query gte w0.
Proof. intros (_ & _ & Ha & _). unfold failedLogins_query. by rewrite Ha. Qed.

Lemma auth_failure_yields w0 w item :
  reliable AuthenticationFailures w0 -> same_store w0 w ->
  yields (auth_failure item) w tt
         [auth_failure_warning item] [auth_failure_finding w0 item].
Proof.
  intros Hrel Hw. unfold auth_failure.
  eapply yields_eq.
  { eapply yields_bind; [apply yields_logger |]. intros w1 Hw1.
    eapply alert_yields; [done | by eapply same_store_trans | done]. }
  - done.
  - done.
Qed.

Lemma detectAuthenticationFailures_yields_from w0 w :
  reliable AuthenticationFailures w0 -> same_store w0 w ->
  yields detectAuthenticationFailures w tt
         (map auth_failure_warning (flagged_groups w0))
         (map (auth_failure_finding w0) (flagged_groups w0)).
Proof.
  intros Hrel Hw. unfold detectAuthenticationFailures.
  eapply yields_eq.
  { eapply yields_bind; [apply yields_logger |]. intros w1 Hw1.
    apply yields_try.
    eapply yields_bind; [apply yields_Date_now |]. intros w2 Hw2.
    assert (same_store w0 w2) as Hw02 by store_eq.
    assert (now w1 = now w0) as -> by store_eq.
    eapply yields_bind.
    { apply (yields_await (auditLog_groupBy _)). by eapply reliable_faults. }
    intros w3 Hw3. rewrite (failedLogins_query_same_store w0 w2) by done.
    eapply (yields_for_of _ _ _ w0).
    - intros x w4 Hw4. by apply auth_failure_yields.
    - store_eq. }
  - simpl. apply flat_map_single.
  - simpl. apply flat_map_single.
Qed.

Lemma detectAuthenticationFailures_yields w :
  reliable AuthenticationFailures w ->
  yields detectAuthenticationFailures w tt
         (map auth_failure_warning (flagged_groups w))
         (map (auth_failure_finding w) (flagged_groups w)).
Proof. intros Hrel. by apply detectAuthenticationFailures_yields_from, same_store_refl. Qed.

(** ** detectUnusualAccess on a reliable store *)

Lemma recentLogs_query_same_store w0 w gte :
  same_store w0 w -> recentLogs_query gte w = recentLogs_query gte w0.
Proof. intros (_ & _ & Ha & _). unfold recentLogs_query. by rewrite Ha. Qed.

Lemma pastUserActivity_query_same_store w0 w user gte lt :
  same_store w0 w ->
  pastUserActivity_query user gte lt w = pastUserActivity_query user gte lt w0.
Proof. intros (_ & _ & Ha & _). unfold pastUserActivity_query. by rewrite Ha. Qed.

Lemma findUnique_query_same_store w0 w user :
  same_store w0 w -> findUnique_query user w = findUnique_query user w0.
Proof. intros (_ & Hu & _). unfold findUnique_query. by rewrite Hu. Qed.

Lemma unusual_access_yields w0 w entry :
  reliable UnusualAccess w0 -> same_store w0 w ->
  yields (unusual_access entry) w tt
         (if unusual_entry w0 entry then [unusual_access_warning entry] else [])
         (if unusual_entry w0 entry then [unusual_access_finding w0 entry] else []).
Proof.
  intros Hrel Hw. destruct entry as [userId recentAccess]. unfold unusual_access.
  eapply yields_eq.
  { eapply yields_bind; [apply yields_Date_now |]. intros w1 Hw1.
    eapply yields_bind; [apply yields_Date_now |]. intros w2 Hw2.
    assert (same_store w0 w2) as Hw02
        by (eapply same_store_trans; [done |]; by eapply same_store_trans).
    assert (now w = now w0) as -> by apply Hw.
    assert (now w1 = now w0) as ->
        by (destruct Hw as (_ & _ & _ & <- & _); apply Hw1).
    eapply yields_bind.
    { apply (yields_await (auditLog_findMany_past _ _ _)).
      by eapply reliable_faults. }
    intros w3 Hw3. rewrite (pastUserActivity_query_same_store w0 w2) by done.
    change (pastUserActivity_query _ _ _ w0) with (past_of w0 userId).
    change (is_unusual _ _) with (unusual_entry w0 (userId, recentAccess)).
    instantiate (1 := if unusual_entry w0 (userId, recentAccess)
                      then [unusual_access_finding w0 (userId, recentAccess)] else []).
    instantiate (1 := if unusual_entry w0 (userId, recentAccess)
                      then [unusual_access_warning (userId, recentAccess)] else []).
    destruct (unusual_entry w0 (userId, recentAccess)); [| apply yields_ret].
    assert (same_store w0 w3) as Hw03 by by eapply same_store_trans.
    eapply yields_eq.
    - eapply yields_bind.
      { apply (yields_await (testUser_findUnique _)). by eapply reliable_faults. }
      intros w4 Hw4. rewrite (findUnique_query_same_store w0 w3) by done.
      eapply yields_bind; [apply yields_logger |]. intros w5 Hw5.
      eapply alert_yields; [done | | done].
      eapply same_store_trans; [done |]. by eapply same_store_trans.
    - done.
    - done. }
  - done.
  - done.
Qed.

Lemma detectUnusualAccess_yields_from w0 w :
  reliable UnusualAccess w0 -> same_store w0 w ->
  yields detectUnusualAccess w tt
         (map unusual_access_warning (unusual_entries w0))
         (map (unusual_access_finding w0) (unusual_entries w0)).
Proof.
  intros Hrel Hw. unfold detectUnusualAccess.
  eapply yields_eq.
  { eapply yields_bind; [apply yields_logger |]. intros w1 Hw1.
    apply yields_try.
    eapply yields_bind; [apply yields_Date_now |]. intros w2 Hw2.
    assert (same_store w0 w2) as Hw02 by store_eq.
    assert (now w1 = now w0) as -> by store_eq.
    eapply yields_bind.
    { apply (yields_await (auditLog_findMany_recent _)). by eapply reliable_faults. }
    intros w3 Hw3. rewrite (recentLogs_query_same_store w0 w2) by done.
    eapply (yields_for_of _ _ _ w0).
    - intros x w4 Hw4. by apply unusual_access_yields.
    - store_eq. }
  - simpl. apply flat_map_filter.
  - simpl. apply flat_map_filter.
Qed.

Lemma detectUnusualAccess_yields w :
  reliable UnusualAccess w ->
  yields detectUnusualAccess w tt
         (map unusual_access_warning (unusual_entries w))
         (map (unusual_access_finding w) (unusual_entries w)).
Proof. intros Hrel. by apply detectUnusualAccess_yields_from, same_store_refl. Qed.

(** ** The access map *)

Lemma truthy_spec s : truthy s = true <-> s <> "".
Proof.
  unfold truthy. rewrite negb_true_iff. apply String.eqb_neq.
Qed.

Lemma Set_has_In x s : Set_has x s = true <-> In x s.
Proof.
  unfold Set_has. rewrite existsb_exists. split.
  - intros (y & Hy & ->%String.eqb_eq). done.
  - intros H. exists x. split; [done | apply String.eqb_refl].
Qed.

Lemma in_Set_add r x s : In r (Set_add x s) <-> r = x \/ In r s.
Proof.
  unfold Set_add. destruct (Set_has x s) eqn:E.
  - apply Set_has_In in E. split; [tauto |]. by intros [-> | H].
  - rewrite in_app_iff. simpl. split; [intros [H | [-> | []]] |]; [tauto .. |].
    intros [-> | H]; tauto.
Qed.

Lemma Map_has_get k m : Map_has k m = true <-> is_Some (Map_get k m).
Proof.
  unfold Map_has, Map_get. induction m as [| e m IH]; simpl.
  - split; [done | by intros [? ?]].
  - destruct (String.eqb (fst e) k); simpl; [| done].
    split; [by eexists | done].
Qed.

Lemma Map_get_alter k k' f m :
  Map_get k (Map_alter k' f m)
  = if String.eqb k k' then f <$> Map_get k m else Map_get k m.
Proof.
  unfold Map_get, Map_alter. induction m as [| [u a] m IH]; simpl.
  - by destruct (String.eqb k k').
  - destruct (String.eqb u k') eqn:E'; simpl;
      destruct (String.eqb u k) eqn:E; simpl; try done.
    + apply String.eqb_eq in E as ->. apply String.eqb_eq in E' as ->.
      by rewrite String.eqb_refl.
    + apply String.eqb_eq in E as ->. rewrite E'. done.
Qed.

Lemma Map_get_app k m k' a :
  Map_get k (m ++ [(k', a)])
  = match Map_get k m with
    | Some x => Some x
    | None => if String.eqb k' k then Some a else None
    end.
Proof.
  unfold Map_get. induction m as [| [u b] m IH]; simpl.
  - by destruct (String.eqb k' k).
  - by destruct (String.eqb u k).
Qed.

Lemma Map_get_note_access k m e :
  Map_get k (note_access m e)
  = match AuditLog.user_id e with
    | Some u =>
        if truthy u && String.eqb k u
        then Some (add_access e (default no_access (Map_get k m)))
        else Map_get k m
    | None => Map_get k m
    end.
Proof.
  unfold note_access. destruct (AuditLog.user_id e) as [u |]; [| done].
  destruct (truthy u); simpl; [| done].
  rewrite Map_get_alter.
  destruct (String.eqb k u) eqn:E.
  - apply String.eqb_eq in E as ->.
    destruct (Map_has u m) eqn:H.
    + apply Map_has_get in H as [a ->]. done.
    + assert (Map_get u m = None) as Hn.
      { destruct (Map_get u m) eqn:G; [| done].
        assert (Map_has u m = true) by (apply Map_has_get; by rewrite G).
        congruence. }
      by rewrite Map_get_app, Hn, String.eqb_refl.
  - destruct (Map_has u m); [done |].
    rewrite Map_get_app. destruct (Map_get k m); [done |].
    rewrite String.eqb_sym, E. done.
Qed.

Lemma keys_Map_alter k f m : map fst (Map_alter k f m) = map fst m.
Proof.
  unfold Map_alter. rewrite map_map. apply map_ext.
  intros [u a]. simpl. by destruct (String.eqb u k).
Qed.

Lemma Map_has_keys k m : Map_has k m = true <-> k ∈ map fst m.
Proof.
  unfold Map_has. rewrite existsb_exists, list_elem_of_In, in_map_iff. split.
  - intros (e & He & Hk%String.eqb_eq). by exists e.
  - intros (e & <- & He). exists e. split; [done | apply String.eqb_refl].
Qed.

Lemma NoDup_note_access m e :
  NoDup (map fst m) -> NoDup (map fst (note_access m e)).
Proof.
  intros H. unfold note_access.
  destruct (AuditLog.user_id e) as [u |]; [| done].
  destruct (truthy u); [| done].
  rewrite keys_Map_alter. destruct (Map_has u m) eqn:E; [done |].
  rewrite map_app. simpl. apply NoDup_app. split; [done |].
  split; [| apply NoDup_singleton].
  intros k Hk ->%list_elem_of_singleton.
  apply Map_has_keys in Hk. congruence.
Qed.

Lemma NoDup_userAccessMap logs : NoDup (map fst (userAccessMap logs)).
Proof.
  unfold userAccessMap.
  assert (NoDup (map fst (@nil (string * UserAccess)))) as H by constructor.
  revert H. generalize (@nil (string * UserAccess)).
  induction logs as [| e logs IH]; intros m H; simpl; [done |].
  by apply IH, NoDup_note_access.
Qed.

Lemma Map_get_In k a m : Map_get k m = Some a -> In (k, a) m.
Proof.
  unfold Map_get. destruct (List.find _ m) as [[u b] |] eqn:E; [| done].
  simpl. intros [= ->]. apply find_some in E as [Hin Hk]. simpl in Hk.
  by apply String.eqb_eq in Hk as ->.
Qed.

Lemma In_Map_get k a m : NoDup (map fst m) -> In (k, a) m -> Map_get k m = Some a.
Proof.
  unfold Map_get. induction m as [| [u b] m IH]; simpl; [done |].
  intros [Hu Hnd]%NoDup_cons [[= -> ->] | Hin].
  - by rewrite String.eqb_refl.
  - destruct (String.eqb u k) eqn:E; [| by apply IH].
    apply String.eqb_eq in E as ->. destruct Hu.
    apply list_elem_of_In, in_map_iff. by exists (k, a).
Qed.

Lemma note_access_Some m e k :
  is_Some (Map_get k (note_access m e))
  <-> is_Some (Map_get k m) \/ (k <> "" /\ AuditLog.user_id e = Some k).
Proof.
  rewrite Map_get_note_access.
  destruct (AuditLog.user_id e) as [u |]; [| naive_solver].
  destruct (truthy u) eqn:T; simpl.
  - apply truthy_spec in T. destruct (String.eqb k u) eqn:E.
    + apply String.eqb_eq in E as ->. split; [by right | by eexists].
    + apply String.eqb_neq in E. naive_solver.
  - assert (u = "") as ->.
    { destruct (decide (u = "")) as [| Hne]; [done |].
      apply truthy_spec in Hne. congruence. }
    naive_solver.
Qed.

Lemma userAccessMap_Some logs k :
  is_Some (Map_get k (userAccessMap logs))
  <-> k <> "" /\ exists e, In e logs /\ AuditLog.user_id e = Some k.
Proof.
  unfold userAccessMap.
  assert (forall m0,
    is_Some (Map_get k (fold_left note_access logs m0))
    <-> is_Some (Map_get k m0)
        \/ (k <> "" /\ exists e, In e logs /\ AuditLog.user_id e = Some k)) as H.
  { induction logs as [| e logs IH]; intros m0; simpl; [naive_solver |].
    rewrite IH, note_access_Some. naive_solver. }
  rewrite H. split; [| by right]. intros [[a Ha] | Hr]; [done | done].
Qed.

Section Members.
(** One of the two sets of an entry, and the field of a log it collects. *)
Variable proj : UserAccess -> list string.
Variable src : AuditLog.t -> string.
Hypothesis proj_no_access : proj no_access = [].
Hypothesis proj_add_access :
  forall e a, proj (add_access e a) = Set_add (src e) (proj a).

Lemma note_access_members m e k r :
  (exists a, Map_get k (note_access m e) = Some a /\ In r (proj a))
  <-> (exists a, Map_get k m = Some a /\ In r (proj a))
      \/ (k <> "" /\ AuditLog.user_id e = Some k /\ src e = r).
Proof using proj_no_access proj_add_access.
  rewrite Map_get_note_access.
  destruct (AuditLog.user_id e) as [u |]; [| naive_solver].
  destruct (truthy u) eqn:T; simpl.
  - apply truthy_spec in T. destruct (String.eqb k u) eqn:E.
    + apply String.eqb_eq in E as ->. split.
      * intros (a & [= <-] & Hr). rewrite proj_add_access in Hr.
        apply in_Set_add in Hr as [-> | Hr]; [by right |].
        left. destruct (Map_get u m) as [a0 |]; simpl in Hr; [by exists a0 |].
        by rewrite proj_no_access in Hr.
      * intros H. eexists. split; [done |].
        rewrite proj_add_access. apply in_Set_add.
        destruct H as [(a & -> & Hr) | (_ & _ & <-)]; [by right | by left].
    + apply String.eqb_neq in E. naive_solver.
  - assert (u = "") as ->.
    { destruct (decide (u = "")) as [| Hne]; [done |].
      apply truthy_spec in Hne. congruence. }
    naive_solver.
Qed.

Lemma userAccessMap_members logs k r :
  (exists a, Map_get k (userAccessMap logs) = Some a /\ In r (proj a))
  <-> k <> ""
      /\ exists e, In e logs /\ AuditLog.user_id e = Some k /\ src e = r.
Proof using proj_no_access proj_add_access.
  unfold userAccessMap.
  assert (forall m0,
    (exists a, Map_get k (fold_left note_access logs m0) = Some a /\ In r (proj a))
    <-> (exists a, Map_get k m0 = Some a /\ In r (proj a))
        \/ (k <> "" /\ exists e, In e logs /\ AuditLog.user_id e = Some k
                                 /\ src e = r)) as H.
  { induction logs as [| e logs IH]; intros m0; simpl; [naive_solver |].
    rewrite IH, note_access_members. naive_solver. }
  rewrite H. split; [| by right]. intros [(a & Ha & _) | Hr]; [done | done].
Qed.
End Members.

Lemma userAccessMap_resources logs k r :
  (exists a, Map_get k (userAccessMap logs) = Some a /\ In r (resources a))
  <-> k <> "" /\ exists e, In e logs /\ AuditLog.user_id e = Some k
                           /\ AuditLog.resource e = r.
Proof. by apply userAccessMap_members. Qed.

Lemma userAccessMap_ipAddresses logs k ip :
  (exists a, Map_get k (userAccessMap logs) = Some a /\ In ip (ipAddresses a))
  <-> k <> "" /\ exists e, In e logs /\ AuditLog.user_id e = Some k
                           /\ AuditLog.ip_address e = ip.
Proof. by apply userAccessMap_members. Qed.

(** ** The historical baseline of a user *)

Lemma in_commonResources past r :
  r ∈ commonResources past
  <-> r <> "" /\ exists p, In p past /\ AuditLog.resource p = r.
Proof.
  unfold commonResources.
  assert (forall s0 : gset string,
    r ∈ fold_left
          (fun s log => if truthy (AuditLog.resource log)
                        then s ∪ {[AuditLog.resource log]} else s) past s0
    <-> r ∈ s0 \/ (r <> "" /\ exists p, In p past /\ AuditLog.resource p = r)) as H.
  { induction past as [| p past IH]; intros s0; simpl; [naive_solver |].
    rewrite IH. destruct (truthy (AuditLog.resource p)) eqn:T.
    - apply truthy_spec in T. rewrite elem_of_union, elem_of_singleton.
      naive_solver.
    - assert (AuditLog.resource p = "") as Hp.
      { destruct (decide (AuditLog.resource p = "")) as [| Hne]; [done |].
        apply truthy_spec in Hne. congruence. }
      naive_solver. }
  rewrite H. set_solver.
Qed.

Lemma never_seen_insert (m : gmap string nat) k ip :
  never_seen (<[k := (default 0 (m !! k) + 1)%nat]> m) ip = false
  <-> ip = k \/ never_seen m ip = false.
Proof.
  unfold never_seen. destruct (decide (ip = k)) as [-> | Hne].
  - rewrite lookup_insert_eq, Nat.add_1_r. naive_solver.
  - rewrite lookup_insert_ne by done. naive_solver.
Qed.

Lemma seen_ipFrequency past ip :
  never_seen (ipFrequency past) ip = false
  <-> ip <> "" /\ exists p, In p past /\ AuditLog.ip_address p = ip.
Proof.
  unfold ipFrequency.
  assert (forall m0 : gmap string nat,
    never_seen
      (fold_left
         (fun m log =>
            if truthy (AuditLog.ip_address log)
            then <[AuditLog.ip_address log :=
                     (default 0 (m !! AuditLog.ip_address log) + 1)%nat]> m
            else m) past m0) ip = false
    <-> never_seen m0 ip = false
        \/ (ip <> "" /\ exists p, In p past /\ AuditLog.ip_address p = ip)) as H.
  { induction past as [| p past IH]; intros m0; simpl; [naive_solver |].
    rewrite IH. destruct (truthy (AuditLog.ip_address p)) eqn:T.
    - apply truthy_spec in T. rewrite never_seen_insert. naive_solver.
    - assert (AuditLog.ip_address p = "") as Hp.
      { destruct (decide (AuditLog.ip_address p = "")) as [| Hne]; [done |].
        apply truthy_spec in Hne. congruence. }
      naive_solver. }
  rewrite H. unfold never_seen at 1. rewrite lookup_empty. naive_solver.
Qed.

Lemma in_newest_first e rows : In e (newest_first rows) <-> In e rows.
Proof.
  unfold newest_first. rewrite <- !list_elem_of_In.
  by rewrite merge_sort_Permutation.
Qed.

Lemma in_recentLogs_query w e :
  In e (recentLogs_query (now w - hours 2) w)
  <-> In e (audit_logs w) /\ now w - hours 2 <= AuditLog.timestamp e
      /\ AuditLog.user_id e <> None.
Proof.
  unfold recentLogs_query.
  rewrite in_newest_first, filter_In, andb_true_iff, Z.leb_le, bool_decide_eq_true.
  tauto.
Qed.

Lemma in_past_of w userId e : In e (past_of w userId) <-> past_event w userId e.
Proof.
  unfold past_of, pastUserActivity_query, past_event.
  rewrite in_newest_first, filter_In, !andb_true_iff, Z.leb_le, Z.ltb_lt,
    bool_decide_eq_true.
  tauto.
Qed.

Lemma recent_event_in_query w userId e :
  recent_event w userId e
  <-> In e (recentLogs_query (now w - hours 2) w) /\ AuditLog.user_id e = Some userId.
Proof.
  unfold recent_event. rewrite in_recentLogs_query. split.
  - intros (H1 & H2 & H3). rewrite H2. done.
  - tauto.
Qed.

(** ** What the unusual-access detector flags *)

Lemma nonempty_In {A} (l : list A) : (0 <? length l)%nat = true <-> exists x, In x l.
Proof.
  rewrite Nat.ltb_lt. destruct l as [| x l]; simpl.
  - split; [lia | by intros [? []]].
  - split; [| lia]. intros _. exists x. by left.
Qed.

Lemma unusual_entry_spec w userId a :
  unusual_entry w (userId, a) = true
  <-> (exists r, In r (resources a) /\ ~ known_resource w userId r)
      \/ (exists ip, In ip (ipAddresses a) /\ ~ known_ip w userId ip).
Proof.
  unfold unusual_entry, is_unusual, unusualResources_of, unusualIps_of. simpl.
  rewrite orb_true_iff, !nonempty_In.
  assert (forall r, r ∈ commonResources (past_of w userId) <-> known_resource w userId r)
    as Hres.
  { intros r. rewrite in_commonResources. unfold known_resource.
    by setoid_rewrite in_past_of. }
  assert (forall ip, never_seen (ipFrequency (past_of w userId)) ip = false
                     <-> known_ip w userId ip) as Hip.
  { intros ip. rewrite seen_ipFrequency. unfold known_ip.
    by setoid_rewrite in_past_of. }
  assert (forall P Q P' Q' : Prop, (P <-> P') -> (Q <-> Q') -> (P \/ Q <-> P' \/ Q'))
    as Hor by tauto.
  apply Hor; apply exist_proper; intros x; rewrite filter_In.
  - rewrite negb_true_iff, bool_decide_eq_false, Hres. done.
  - rewrite <- Hip, not_false_iff_true. done.
Qed.

Lemma in_unusual_entries w userId :
  (exists a, In (userId, a) (unusual_entries w))
  <-> userId <> "" /\ has_unusual_access w userId.
Proof.
  unfold unusual_entries, recent_entries, has_unusual_access.
  set (logs := recentLogs_query (now w - hours 2) w).
  pose proof (NoDup_userAccessMap logs) as Hnd.
  pose proof (userAccessMap_resources logs userId) as Hres.
  pose proof (userAccessMap_ipAddresses logs userId) as Hips.
  split.
  - intros (a & [Hin Hun]%filter_In).
    apply unusual_entry_spec in Hun.
    apply (In_Map_get _ _ _ Hnd) in Hin.
    assert (userId <> "") as Hne.
    { apply (userAccessMap_Some logs userId). by rewrite Hin. }
    split; [done |].
    destruct Hun as [(r & Hr & Hk) | (ip & Hi & Hk)]; [left | right].
    + destruct (proj1 (Hres r)) as (_ & e & He & Hu & <-); [by exists a |].
      exists e. split; [| done]. by apply recent_event_in_query.
    + destruct (proj1 (Hips ip)) as (_ & e & He & Hu & <-); [by exists a |].
      exists e. split; [| done]. by apply recent_event_in_query.
  - intros [Hne Hun].
    assert (forall a, Map_get userId (userAccessMap logs) = Some a ->
                      unusual_entry w (userId, a) = true ->
                      exists a, In (userId, a)
                                   (List.filter (unusual_entry w) (userAccessMap logs)))
      as Hfound.
    { intros a Ha Hu. exists a. apply filter_In. split; [| done].
      by apply Map_get_In. }
    destruct Hun as [(e & [He Hu]%recent_event_in_query & Hk)
                    | (e & [He Hu]%recent_event_in_query & Hk)].
    + destruct (proj2 (Hres (AuditLog.resource e))) as (a & Ha & Hr).
      { split; [done |]. by exists e. }
      apply (Hfound a Ha). apply unusual_entry_spec. left. by eexists.
    + destruct (proj2 (Hips (AuditLog.ip_address e))) as (a & Ha & Hr).
      { split; [done |]. by exists e. }
      apply (Hfound a Ha). apply unusual_entry_spec. right. by eexists.
Qed.

(** ** Every run of the service *)

Section Safety.
Variable P : list Event -> Prop.
Hypothesis P_nil : P [].
Hypothesis P_app : forall evs1 evs2, P evs1 -> P evs2 -> P (evs1 ++ evs2).
Hypothesis P_log : forall l, P [Logged l].
Hypothesis P_call :
  forall c ok, (forall data, c <> anomalyLogRecord_create data) -> P [Called c ok].

Lemma emits_ret {A} (a : A) : emits P (mret a).
Proof using P_nil. intros w. exists (Resolved a), []. by split. Qed.

Lemma emits_bind {A B} (m : Async A) (f : A -> Async B) :
  emits P m -> (forall a, emits P (f a)) -> emits P (m ≫= f).
Proof using P_app.
  intros Hm Hf w. destruct (Hm w) as ([a |] & evs1 & Hrun & HP).
  - destruct (Hf a (replay evs1 w)) as (r & evs2 & Hrun2 & HP2).
    exists r, (evs1 ++ evs2). split; [by eapply runs_bind | by apply P_app].
  - exists Rejected, evs1. split; [by apply runs_bind_rejected | done].
Qed.

Lemma emits_try {A} (body handler : Async A) :
  emits P body -> emits P handler -> emits P (try_catch body handler).
Proof using P_app.
  intros Hb Hh w. destruct (Hb w) as ([a |] & evs1 & Hrun & HP).
  - exists (Resolved a), evs1. split; [by apply runs_try | done].
  - destruct (Hh (replay evs1 w)) as (r & evs2 & Hrun2 & HP2).
    exists r, (evs1 ++ evs2). split; [by eapply runs_try_caught | by apply P_app].
Qed.

Lemma emits_logger l : emits P (logger l).
Proof using P_log. intros w. exists (Resolved tt), [Logged l]. by split. Qed.

Lemma emits_Date_now : emits P Date_now.
Proof using P_nil. intros w. exists (Resolved (now w)), []. by split. Qed.

Lemma emits_await {A} c (result : World -> A) :
  (forall data, c <> anomalyLogRecord_create data) ->
  emits P (await c result (effect_of c)).
Proof using P_call.
  intros Hc w. eexists _, _. split; [apply runs_await | by apply P_call].
Qed.

Lemma emits_for_of {A} (xs : list A) (body : A -> Async unit) :
  (forall x, emits P (body x)) -> emits P (for_of xs body).
Proof using P_nil P_app.
  intros Hbody. induction xs as [| x xs IH]; simpl.
  - apply emits_ret.
  - by apply emits_bind.
Qed.

Lemma settles_logger l : settles P (logger l).
Proof using P_log. intros w. exists [Logged l]. by split. Qed.

Lemma settles_seq (m1 m2 : Async unit) :
  settles P m1 -> settles P m2 -> settles P (m1;; m2).
Proof using P_app.
  intros H1 H2 w. destruct (H1 w) as (evs1 & Hrun1 & HP1).
  destruct (H2 (replay evs1 w)) as (evs2 & Hrun2 & HP2).
  exists (evs1 ++ evs2). split; [by eapply runs_bind | by apply P_app].
Qed.

(** A body whose rejection is caught by a handler that only logs. *)
Lemma settles_try (body : Async unit) l :
  emits P body -> settles P (try_catch body (logger l)).
Proof using P_app P_log.
  intros Hb w. destruct (Hb w) as ([[] |] & evs1 & Hrun & HP).
  - exists evs1. split; [by apply runs_try | done].
  - exists (evs1 ++ [Logged l]). split; [| by apply P_app].
    eapply runs_try_caught; [done | apply runs_logger].
Qed.

Lemma emits_getAdministrators role : emits P (getAdministrators role).
Proof using P_app P_log P_call.
  intros w. eexists _, _. split; [apply getAdministrators_runs |].
  simpl. destruct (faults w _ _).
  - apply (P_app [_] [_]); [by apply P_call | apply P_log].
  - by apply P_call.
Qed.

Lemma settles_logAnomaly_after_notify recipients sev type user details :
  reports P type sev ->
  emits P (notify recipients sev type user details;;
           logAnomaly type sev user details).
Proof using P_app P_log P_call.
  intros Hrep w.
  set (p := {| severity := sev;
               metadata := {| anomalyType := type; userId := user;
                              fields := details; timestamp := now w |} |}).
  set (d := AnomalyLogRecord.mkInput type sev user details (now w) false).
  destruct (faults w (sendNotification all_channels recipients p) (ticks w)) eqn:F1.
  - exists Rejected, [Called (sendNotification all_channels recipients p) false].
    split; [| by apply P_call].
    unfold runs, notify, mbind, Async_bind, Date_now, await. fold p. by rewrite F1.
  - destruct (faults w (anomalyLogRecord_create d) (S (ticks w))) eqn:F2.
    + exists (Resolved tt),
        ([Called (sendNotification all_channels recipients p) true;
          Called (anomalyLogRecord_create d) false] ++ [Logged error_log_anomaly]).
      split; [| apply P_app; [apply Hrep | apply P_log]].
      unfold runs, notify, logAnomaly, try_catch, mbind, Async_bind, Date_now, await.
      fold p. rewrite F1. simpl. fold d. by rewrite F2.
    + exists (Resolved tt),
        [Called (sendNotification all_channels recipients p) true;
         Called (anomalyLogRecord_create d) true].
      split; [| apply Hrep].
      unfold runs, notify, logAnomaly, try_catch, mbind, Async_bind, Date_now, await.
      fold p. rewrite F1. simpl. fold d. by rewrite F2.
Qed.

Lemma emits_alert role sev type user details :
  reports P type sev ->
  emits P (admins ← getAdministrators role;
           notify admins sev type user details;;
           logAnomaly type sev user details).
Proof using P_app P_log P_call.
  intros Hrep. apply emits_bind; [apply emits_getAdministrators |].
  intros admins. by apply settles_logAnomaly_after_notify.
Qed.

Lemma settles_detectHighValuePurchases :
  reports P "high_purchase" high -> settles P detectHighValuePurchases.
Proof using P_nil P_app P_log P_call.
  intros Hrep. apply settles_seq; [apply settles_logger |]. apply settles_try.
  apply emits_bind; [apply emits_Date_now |]. intros since.
  apply emits_bind; [by apply (emits_await (testOrder_findMany _)) |]. intros recent.
  apply emits_for_of. intros purchase. unfold high_value_purchase.
  apply emits_bind; [apply emits_Date_now |]. intros from.
  apply emits_bind; [apply emits_Date_now |]. intros to.
  apply emits_bind; [by apply (emits_await (queryRaw_userStats _ _ _)) |].
  intros userStats. simpl. destruct (is_high_value _ _ _); [| apply emits_ret].
  apply emits_bind; [apply emits_logger |]. intros _. by apply emits_alert.
Qed.

Lemma settles_detectAuthenticationFailures :
  reports P "auth_failure" high -> settles P detectAuthenticationFailures.
Proof using P_nil P_app P_log P_call.
  intros Hrep. apply settles_seq; [apply settles_logger |]. apply settles_try.
  apply emits_bind; [apply emits_Date_now |]. intros since.
  apply emits_bind; [by apply (emits_await (auditLog_groupBy _)) |]. intros groups.
  apply emits_for_of. intros item. unfold auth_failure.
  apply emits_bind; [apply emits_logger |]. intros _. by apply emits_alert.
Qed.

Lemma settles_detectUnusualAccess :
  reports P "unusual_access" medium -> settles P detectUnusualAccess.
Proof using P_nil P_app P_log P_call.
  intros Hrep. apply settles_seq; [apply settles_logger |]. apply settles_try.
  apply emits_bind; [apply emits_Date_now |]. intros since.
  apply emits_bind; [by apply (emits_await (auditLog_findMany_recent _)) |].
  intros recentLogs.
  apply emits_for_of. intros [userId recentAccess]. unfold unusual_access.
  apply emits_bind; [apply emits_Date_now |]. intros gte.
  apply emits_bind; [apply emits_Date_now |]. intros lt.
  apply emits_bind; [by apply (emits_await (auditLog_findMany_past _ _ _)) |].
  intros past. simpl. destruct (is_unusual _ _); [| apply emits_ret].
  apply emits_bind; [by apply (emits_await (testUser_findUnique _)) |]. intros user.
  apply emits_bind; [apply emits_logger |]. intros _. by apply emits_alert.
Qed.

Lemma settles_Promise_all (ps : list (Async unit)) :
  Forall (settles P) ps -> settles P (Promise_all ps).
Proof using P_nil P_app.
  induction 1 as [| p ps Hp _ IH]; intros w; simpl.
  - exists []. by split.
  - destruct (Hp w) as (evs1 & Hrun1 & HP1).
    destruct (IH (replay evs1 w)) as (evs2 & Hrun2 & HP2).
    exists (evs1 ++ evs2). split; [| by apply P_app].
    unfold runs in *. rewrite Hrun1, Hrun2. by rewrite replay_app.
Qed.

Lemma settles_detectAnomalies :
  reports P "high_purchase" high -> reports P "auth_failure" high ->
  reports P "unusual_access" medium ->
  settles P detectAnomalies.
Proof using P_nil P_app P_log P_call.
  intros H1 H2 H3. unfold detectAnomalies.
  apply settles_seq; [apply settles_logger |].
  apply settles_seq; [| apply settles_logger].
  apply settles_Promise_all. repeat constructor.
  - by apply settles_detectHighValuePurchases.
  - by apply settles_detectAuthenticationFailures.
  - by apply settles_detectUnusualAccess.
Qed.
End Safety.

(** ** Every run of a detector stays within what it is to find *)

Section Attempts.
Variable W : list LogLine.
Variable F : list AnomalyLogRecord.CreateInput.

Lemma within_nil : within W F [].
Proof. split; intros x []. Qed.

Lemma within_app evs1 evs2 :
  within W F evs1 -> within W F evs2 -> within W F (evs1 ++ evs2).
Proof.
  intros [H1 H2] [H3 H4]. unfold within.
  rewrite warnings_app, created_app. split; by apply incl_app.
Qed.

Lemma within_log l : (is_warning l = true -> In l W) -> within W F [Logged l].
Proof.
  intros Hl. split; simpl.
  - destruct (is_warning l); [| by intros x []].
    intros x [<- | []]. by apply Hl.
  - by intros x [].
Qed.

Lemma within_call c ok :
  (forall data, c = anomalyLogRecord_create data -> ok = true -> In data F) ->
  within W F [Called c ok].
Proof.
  intros Hc. split; [by intros x [] |].
  destruct c, ok; simpl; try (by intros x []).
  intros x [<- | []]. by apply Hc.
Qed.

Lemma attempts_ret {A} (a : A) w : attempts (within W F) (mret a) w a.
Proof.
  exists (Resolved a), []. split; [apply runs_ret |]. split; [apply within_nil | by right].
Qed.

Lemma attempts_bind {A B} (m : Async A) (f : A -> Async B) w a b :
  attempts (within W F) m w a ->
  (forall w', same_store w w' -> attempts (within W F) (f a) w' b) ->
  attempts (within W F) (m ≫= f) w b.
Proof.
  intros (r & evs1 & Hrun & HP & [-> | ->]) Hf.
  - exists Rejected, evs1. split; [by apply runs_bind_rejected |]. split; [done | by left].
  - destruct (Hf (replay evs1 w) (replay_same_store _ _)) as (r & evs2 & Hrun2 & HP2 & Hr).
    exists r, (evs1 ++ evs2). split; [by eapply runs_bind |].
    split; [by apply within_app | done].
Qed.

Lemma attempts_logger l w :
  (is_warning l = true -> In l W) -> attempts (within W F) (logger l) w tt.
Proof.
  intros Hl. exists (Resolved tt), [Logged l].
  split; [apply runs_logger |]. split; [by apply within_log | by right].
Qed.

Lemma attempts_Date_now w : attempts (within W F) Date_now w (now w).
Proof.
  exists (Resolved (now w)), []. split; [apply runs_Date_now |].
  split; [apply within_nil | by right].
Qed.

Lemma attempts_await {A} c (result : World -> A) w :
  (forall data, c = anomalyLogRecord_create data -> In data F) ->
  attempts (within W F) (await c result (effect_of c)) w (result w).
Proof.
  intros Hc. eexists _, _. split; [apply runs_await |].
  split; [apply within_call; eauto |].
  destruct (faults w c (ticks w)); [by left | by right].
Qed.

Lemma attempts_for_of {A} (xs : list A) (body : A -> Async unit) w0 :
  (forall x w, In x xs -> same_store w0 w -> attempts (within W F) (body x) w tt) ->
  forall w, same_store w0 w -> attempts (within W F) (for_of xs body) w tt.
Proof.
  induction xs as [| x xs IH]; intros Hbody w Hw; simpl.
  - apply attempts_ret.
  - eapply attempts_bind; [apply Hbody; [by left | done] |].
    intros w' Hw'. apply IH; [| store_eq].
    intros y w'' Hy Hw''. apply Hbody; [by right | done].
Qed.

Lemma attempts_getAdministrators role w :
  exists ids, attempts (within W F) (getAdministrators role) w ids.
Proof.
  eexists. eexists _, _. split; [apply getAdministrators_runs |].
  split; [| by right]. simpl. destruct (faults w _ _).
  - apply (within_app [_] [_]); [by apply within_call | by apply within_log].
  - by apply within_call.
Qed.

Lemma attempts_logAnomaly type sev user details w0 w :
  same_store w0 w -> In (finding type sev user details w0) F ->
  attempts (within W F) (logAnomaly type sev user details) w tt.
Proof.
  intros Hw Hin. eexists _, _. split; [apply logAnomaly_runs |].
  split; [| by right].
  assert (finding type sev user details w = finding type sev user details w0) as ->
      by (unfold finding; f_equal; store_eq).
  destruct (faults w _ _).
  - apply (within_app [_] [_]); [by apply within_call | by apply within_log].
  - apply within_call. by intros data [= <-] _.
Qed.

Lemma attempts_alert role sev type user details w0 w :
  same_store w0 w -> In (finding type sev user details w0) F ->
  attempts (within W F)
           (admins ← getAdministrators role;
            notify admins sev type user details;;
            logAnomaly type sev user details) w tt.
Proof.
  intros Hw Hin. destruct (attempts_getAdministrators role w) as [ids Hids].
  eapply attempts_bind; [apply Hids |]. intros w1 Hw1.
  eapply attempts_bind.
  - unfold notify. eapply attempts_bind; [apply attempts_Date_now |]. intros w2 Hw2.
    by apply (attempts_await (sendNotification _ _ _) (fun _ => tt)).
  - intros w2 Hw2. eapply attempts_logAnomaly; [| done]. store_eq.
Qed.

(** A detector: a start line, then a body whose rejection is logged. *)
Lemma attempts_detector (body : Async unit) start error w :
  is_warning start = false -> is_warning error = false ->
  (forall w', same_store w w' -> attempts (within W F) body w' tt) ->
  exists evs, runs (logger start;; try_catch body (logger error)) w (Resolved tt) evs
              /\ within W F evs.
Proof.
  intros Hs He Hbody.
  destruct (Hbody (replay [Logged start] w) (replay_same_store _ _))
    as (r & evs & Hrun & HP & Hr).
  assert (within W F [Logged start]) as HPs by (apply within_log; congruence).
  assert (within W F [Logged error]) as HPe by (apply within_log; congruence).
  destruct Hr as [-> | ->].
  - exists ([Logged start] ++ evs ++ [Logged error]). split.
    + eapply runs_bind; [apply runs_logger |].
      eapply runs_try_caught; [done | apply runs_logger].
    + by repeat apply within_app.
  - exists ([Logged start] ++ evs). split.
    + eapply runs_bind; [apply runs_logger |]. by apply runs_try.
    + by apply within_app.
Qed.
End Attempts.

Lemma detectHighValuePurchases_within w0 w :
  same_store w0 w ->
  exists evs, runs detectHighValuePurchases w (Resolved tt) evs
              /\ within (map (high_value_warning w0) (high_value_orders w0))
                        (expected_findings HighValuePurchases w0) evs.
Proof.
  intros Hw. apply attempts_detector; [done | done |]. intros w1 Hw1.
  eapply attempts_bind; [apply attempts_Date_now |]. intros w2 Hw2.
  assert (now w1 = now w0) as -> by store_eq.
  eapply attempts_bind; [by apply (attempts_await _ _ (testOrder_findMany _)) |].
  intros w3 Hw3. rewrite (recentPurchases_same_store w0 w2) by store_eq.
  apply (attempts_for_of _ _ _ _ w0); [| store_eq].
  intros o w4 Ho Hw4. unfold high_value_purchase.
  eapply attempts_bind; [apply attempts_Date_now |]. intros w5 Hw5.
  eapply attempts_bind; [apply attempts_Date_now |]. intros w6 Hw6.
  assert (now w4 = now w0) as -> by store_eq.
  assert (now w5 = now w0) as -> by store_eq.
  eapply attempts_bind; [by apply (attempts_await _ _ (queryRaw_userStats _ _ _)) |].
  intros w7 Hw7. rewrite (userStats_query_same_store w0 w6) by store_eq.
  change (is_high_value _ _ _) with (exceeds_baseline w0 o).
  change (or_zero _) with (baseline_average w0 (TestOrder.user_id o)).
  destruct (exceeds_baseline w0 o) eqn:E; [| apply attempts_ret].
  assert (In o (high_value_orders w0)) as Hin by (by apply filter_In).
  eapply attempts_bind.
  { apply attempts_logger. intros _. by apply (in_map (high_value_warning w0)). }
  intros w8 Hw8. eapply (attempts_alert _ _ _ _ _ _ _ w0); [store_eq |].
  by apply (in_map (high_value_finding w0)).
Qed.

Lemma detectAuthenticationFailures_within w0 w :
  same_store w0 w ->
  exists evs, runs detectAuthenticationFailures w (Resolved tt) evs
              /\ within (map auth_failure_warning (flagged_groups w0))
                        (expected_findings AuthenticationFailures w0) evs.
Proof.
  intros Hw. apply attempts_detector; [done | done |]. intros w1 Hw1.
  eapply attempts_bind; [apply attempts_Date_now |]. intros w2 Hw2.
  assert (now w1 = now w0) as -> by store_eq.
  eapply attempts_bind; [by apply (attempts_await _ _ (auditLog_groupBy _)) |].
  intros w3 Hw3. rewrite (failedLogins_query_same_store w0 w2) by store_eq.
  apply (attempts_for_of _ _ _ _ w0); [| store_eq].
  intros item w4 Hitem Hw4. unfold auth_failure.
  eapply attempts_bind.
  { apply attempts_logger. intros _. by apply (in_map auth_failure_warning). }
  intros w5 Hw5. eapply (attempts_alert _ _ _ _ _ _ _ w0); [store_eq |].
  by apply (in_map (auth_failure_finding w0)).
Qed.

Lemma detectUnusualAccess_within w0 w :
  same_store w0 w ->
  exists evs, runs detectUnusualAccess w (Resolved tt) evs
              /\ within (map unusual_access_warning (unusual_entries w0))
                        (expected_findings UnusualAccess w0) evs.
Proof.
  intros Hw. apply attempts_detector; [done | done |]. intros w1 Hw1.
  eapply attempts_bind; [apply attempts_Date_now |]. intros w2 Hw2.
  assert (now w1 = now w0) as -> by store_eq.
  eapply attempts_bind; [by apply (attempts_await _ _ (auditLog_findMany_recent _)) |].
  intros w3 Hw3. rewrite (recentLogs_query_same_store w0 w2) by store_eq.
  apply (attempts_for_of _ _ _ _ w0); [| store_eq].
  intros [userId recentAccess] w4 Hentry Hw4. unfold unusual_access.
  eapply attempts_bind; [apply attempts_Date_now |]. intros w5 Hw5.
  eapply attempts_bind; [apply attempts_Date_now |]. intros w6 Hw6.
  assert (now w4 = now w0) as -> by store_eq.
  assert (now w5 = now w0) as -> by store_eq.
  eapply attempts_bind;
    [by apply (attempts_await _ _ (auditLog_findMany_past _ _ _)) |].
  intros w7 Hw7. rewrite (pastUserActivity_query_same_store w0 w6) by store_eq.
  change (pastUserActivity_query _ _ _ w0) with (past_of w0 userId).
  change (is_unusual _ _) with (unusual_entry w0 (userId, recentAccess)).
  destruct (unusual_entry w0 (userId, recentAccess)) eqn:E; [| apply attempts_ret].
  assert (In (userId, recentAccess) (unusual_entries w0)) as Hin
      by (by apply filter_In).
  eapply attempts_bind; [by apply (attempts_await _ _ (testUser_findUnique _)) |].
  intros w8 Hw8. rewrite (findUnique_query_same_store w0 w7) by store_eq.
  eapply attempts_bind.
  { apply attempts_logger. intros _.
    by apply (in_map unusual_access_warning) in Hin. }
  intros w9 Hw9. eapply (attempts_alert _ _ _ _ _ _ _ w0); [store_eq |].
  by apply (in_map (unusual_access_finding w0)) in Hin.
Qed.

(** Whatever rejects, a detector warns only about what it is to find. *)
Lemma flags_within {A} (m : Async A) w r evs W F l :
  runs m w r evs -> within W F evs -> is_warning l = true -> flags m w l -> In l W.
Proof.
  intros Hrun [HW _] Hl Hf. apply HW. unfold flags in Hf.
  rewrite (runs_emitted _ _ _ _ Hrun) in Hf. by apply in_warnings.
Qed.

(** ** What the detectors flag *)




(** ** The sweep *)

Lemma runs_det {A} (m : Async A) w r evs r' evs' :
  runs m w r evs -> runs m w r' evs' -> r = r' /\ evs = evs'.
Proof.
  intros H1 H2. split.
  - unfold runs in *. congruence.
  - apply runs_emitted in H1, H2. congruence.
Qed.

Lemma runs_Promise_all_cons p ps w evs1 r evs2 :
  runs p w (Resolved tt) evs1 ->
  runs (Promise_all ps) (replay evs1 w) r evs2 ->
  runs (Promise_all (p :: ps)) w r (evs1 ++ evs2).
Proof.
  unfold runs. simpl. intros -> ->. by rewrite replay_app.
Qed.

Lemma anything_goes :
  let P := fun _ : list Event => True in
  P [] /\ (forall evs1 evs2, P evs1 -> P evs2 -> P (evs1 ++ evs2))
  /\ (forall l, P [Logged l])
  /\ (forall c ok, (forall data, c <> anomalyLogRecord_create data) -> P [Called c ok])
  /\ (forall type sev, reports P type sev).
Proof. by repeat split. Qed.

Lemma detector_settles d w : exists evs, runs (detector d) w (Resolved tt) evs.
Proof.
  destruct anything_goes as (H1 & H2 & H3 & H4 & H5).
  destruct d; simpl.
  - destruct (settles_detectHighValuePurchases _ H1 H2 H3 H4 (H5 _ _) w) as (evs & H & _).
    by exists evs.
  - destruct (settles_detectAuthenticationFailures _ H1 H2 H3 H4 (H5 _ _) w)
      as (evs & H & _).
    by exists evs.
  - destruct (settles_detectUnusualAccess _ H1 H2 H3 H4 (H5 _ _) w) as (evs & H & _).
    by exists evs.
Qed.

(** The events of a sweep: the start line, the three complete runs of the
    detectors, the completion line. *)
Lemma detectAnomalies_runs w :
  exists eH eA eU,
    runs detectHighValuePurchases (replay [Logged log_sweep_started] w) (Resolved tt) eH
    /\ runs detectAuthenticationFailures
            (replay ([Logged log_sweep_started] ++ eH) w) (Resolved tt) eA
    /\ runs detectUnusualAccess
            (replay ([Logged log_sweep_started] ++ eH ++ eA) w) (Resolved tt) eU
    /\ runs detectAnomalies w (Resolved tt)
            ([Logged log_sweep_started] ++ (eH ++ eA ++ eU)
             ++ [Logged log_sweep_completed]).
Proof.
  destruct (detector_settles HighValuePurchases (replay [Logged log_sweep_started] w))
    as (eH & HH).
  destruct (detector_settles AuthenticationFailures
              (replay ([Logged log_sweep_started] ++ eH) w)) as (eA & HA).
  destruct (detector_settles UnusualAccess
              (replay ([Logged log_sweep_started] ++ eH ++ eA) w)) as (eU & HU).
  exists eH, eA, eU. split; [done |]. split; [done |]. split; [done |].
  unfold detectAnomalies.
  eapply runs_bind; [apply runs_logger |].
  eapply runs_bind; [| apply runs_logger].
  eapply runs_Promise_all_cons; [apply HH |].
  eapply runs_Promise_all_cons; [by rewrite <- replay_app |].
  rewrite <- (app_nil_r eU).
  eapply runs_Promise_all_cons; [| apply runs_ret].
  rewrite !replay_app in HU. apply HU.
Qed.

Lemma detectAnomalies_resolves w :
  exists w', detectAnomalies w = (Resolved tt, w').
Proof.
  destruct (detectAnomalies_runs w) as (eH & eA & eU & _ & _ & _ & H).
  eexists. apply H.
Qed.

Lemma created_sweep eH eA eU :
  created ([Logged log_sweep_started] ++ (eH ++ eA ++ eU)
           ++ [Logged log_sweep_completed])
  = created eH ++ created eA ++ created eU.
Proof.
  rewrite !created_app. simpl. by rewrite !app_nil_r.
Qed.

(** ** What every run inserts *)

Lemma created_props (Q : AnomalyLogRecord.CreateInput -> Prop) :
  let P := fun evs => Forall Q (created evs) in
  P [] /\ (forall evs1 evs2, P evs1 -> P evs2 -> P (evs1 ++ evs2))
  /\ (forall l, P [Logged l])
  /\ (forall c ok, (forall data, c <> anomalyLogRecord_create data) -> P [Called c ok])
  /\ (forall type sev,
        (forall user details ts,
            Q (AnomalyLogRecord.mkInput type sev user details ts false)) ->
        reports P type sev).
Proof.
  simpl. split; [constructor |]. split; [| split; [| split]].
  - intros evs1 evs2 H1 H2. rewrite created_app. by apply Forall_app.
  - intros l. constructor.
  - intros c ok Hc. destruct c; try constructor. by destruct (Hc data).
  - intros type sev HQ recipients user details ts ok.
    destruct ok; simpl; repeat constructor. apply HQ.
Qed.

Lemma detector_creates_own_type d w r evs :
  runs (detector d) w r evs ->
  Forall (fun f => AnomalyLogRecord.in_type f = type_of d) (created evs).
Proof.
  intros Hrun.
  destruct (created_props (fun f => AnomalyLogRecord.in_type f = type_of d))
    as (H1 & H2 & H3 & H4 & H5).
  assert (exists evs', runs (detector d) w (Resolved tt) evs'
                       /\ Forall (fun f => AnomalyLogRecord.in_type f = type_of d)
                                 (created evs')) as (evs' & Hrun' & HP).
  { destruct d; simpl.
    - apply (settles_detectHighValuePurchases _ H1 H2 H3 H4). by apply H5.
    - apply (settles_detectAuthenticationFailures _ H1 H2 H3 H4). by apply H5.
    - apply (settles_detectUnusualAccess _ H1 H2 H3 H4). by apply H5. }
  by destruct (runs_det _ _ _ _ _ _ Hrun Hrun') as [_ ->].
Qed.

Lemma findings_of_own d fs :
  Forall (fun f => AnomalyLogRecord.in_type f = type_of d) fs -> findings_of d fs = fs.
Proof.
  induction 1 as [| f fs Hf _ IH]; simpl; [done |].
  by rewrite Hf, String.eqb_refl, IH.
Qed.

Lemma findings_of_other d d' fs :
  d <> d' ->
  Forall (fun f => AnomalyLogRecord.in_type f = type_of d') fs -> findings_of d fs = [].
Proof.
  intros Hne. induction 1 as [| f fs Hf _ IH]; simpl; [done |].
  rewrite Hf, IH. by destruct d, d'.
Qed.

Lemma findings_of_app d fs1 fs2 :
  findings_of d (fs1 ++ fs2) = findings_of d fs1 ++ findings_of d fs2.
Proof. apply List.filter_app. Qed.

Lemma rows_of_rows_from d k fs :
  map AnomalyLogRecord.content (rows_of d (rows_from k fs))
  = map input_content (findings_of d fs).
Proof.
  revert k. induction fs as [| f fs IH]; intros k; simpl; [done |].
  destruct (String.eqb (AnomalyLogRecord.in_type f) (type_of d)); simpl;
    by rewrite IH.
Qed.

Lemma detector_yields_from d w0 w :
  reliable d w0 -> same_store w0 w ->
  exists ws, yields (detector d) w tt ws (expected_findings d w0).
Proof.
  intros Hrel Hw. destruct d; simpl; eexists.
  - by apply detectHighValuePurchases_yields_from.
  - by apply detectAuthenticationFailures_yields_from.
  - by apply detectUnusualAccess_yields_from.
Qed.

(** What a detector inserts during a sweep: its own findings only, and all
    it is to find when its calls are reliable. *)
Lemma detector_created d w0 w r evs :
  same_store w0 w -> runs (detector d) w r evs ->
  (forall d', findings_of d' (created evs)
              = if decide (d' = d) then created evs else [])
  /\ (reliable d w0 -> created evs = expected_findings d w0).
Proof.
  intros Hw Hrun. pose proof (detector_creates_own_type d w r evs Hrun) as Hty.
  split.
  - intros d'. case_decide as E.
    + subst d'. by apply findings_of_own.
    + by eapply findings_of_other.
  - intros Hrel.
    destruct (detector_yields_from d w0 w Hrel Hw) as (ws & evs' & Hrun' & _ & <-).
    by destruct (runs_det _ _ _ _ _ _ Hrun Hrun') as [_ ->].
Qed.

Lemma sweep_created w0 w :
  same_store w0 w ->
  exists eH eA eU wH wA wU,
    runs detectAnomalies w (Resolved tt)
         ([Logged log_sweep_started] ++ (eH ++ eA ++ eU)
          ++ [Logged log_sweep_completed])
    /\ runs detectHighValuePurchases wH (Resolved tt) eH
    /\ runs detectAuthenticationFailures wA (Resolved tt) eA
    /\ runs detectUnusualAccess wU (Resolved tt) eU
    /\ (forall d, findings_of d (created eH ++ created eA ++ created eU)
                  = match d with
                    | HighValuePurchases => created eH
                    | AuthenticationFailures => created eA
                    | UnusualAccess => created eU
                    end)
    /\ (reliable HighValuePurchases w0 ->
        created eH = expected_findings HighValuePurchases w0)
    /\ (reliable AuthenticationFailures w0 ->
        created eA = expected_findings AuthenticationFailures w0)
    /\ (reliable UnusualAccess w0 ->
        created eU = expected_findings UnusualAccess w0).
Proof.
  intros Hw. destruct (detectAnomalies_runs w) as (eH & eA & eU & HH & HA & HU & Hrun).
  pose proof (replay_same_store [Logged log_sweep_started] w) as SH.
  pose proof (replay_same_store ([Logged log_sweep_started] ++ eH) w) as SA.
  pose proof (replay_same_store ([Logged log_sweep_started] ++ eH ++ eA) w) as SU.
  destruct (detector_created HighValuePurchases w0 _ _ _
              (same_store_trans _ _ _ Hw SH) HH) as [TH EH].
  destruct (detector_created AuthenticationFailures w0 _ _ _
              (same_store_trans _ _ _ Hw SA) HA) as [TA EA].
  destruct (detector_created UnusualAccess w0 _ _ _
              (same_store_trans _ _ _ Hw SU) HU) as [TU EU].
  exists eH, eA, eU. do 3 eexists.
  split; [done |]. split; [apply HH |]. split; [apply HA |]. split; [apply HU |].
  split; [| done].
  intros d. rewrite !findings_of_app, TH, TA, TU.
  destruct d; simpl; by rewrite ?app_nil_r.
Qed.

Lemma sweep_reliable w0 w :
  same_store w0 w -> (forall d, reliable d w0) ->
  exists evs, runs detectAnomalies w (Resolved tt) evs
              /\ created evs = all_expected_findings w0.
Proof.
  intros Hw Hrel.
  destruct (sweep_created w0 w Hw)
    as (eH & eA & eU & wH & wA & wU & Hrun & _ & _ & _ & _ & EH & EA & EU).
  eexists. split; [apply Hrun |].
  rewrite created_sweep, EH, EA, EU by done. done.
Qed.

Lemma detector_within d w0 w r evs :
  same_store w0 w -> runs (detector d) w r evs ->
  incl (created evs) (expected_findings d w0).
Proof.
  intros Hw Hrun.
  assert (exists evs', runs (detector d) w (Resolved tt) evs'
                       /\ incl (created evs') (expected_findings d w0))
    as (evs' & Hrun' & Hincl).
  { destruct d; simpl.
    - destruct (detectHighValuePurchases_within w0 w Hw) as (e & He & _ & Hc). eauto.
    - destruct (detectAuthenticationFailures_within w0 w Hw) as (e & He & _ & Hc). eauto.
    - destruct (detectUnusualAccess_within w0 w Hw) as (e & He & _ & Hc). eauto. }
  by destruct (runs_det _ _ _ _ _ _ Hrun Hrun') as [_ ->].
Qed.

(** Whatever rejects, a sweep inserts only findings the detectors are to
    find. *)
Lemma sweep_within w d :
  incl (findings_of d (created (emitted detectAnomalies w))) (expected_findings d w).
Proof.
  destruct (detectAnomalies_runs w) as (eH & eA & eU & HH & HA & HU & Hrun).
  pose proof (replay_same_store [Logged log_sweep_started] w) as SH.
  pose proof (replay_same_store ([Logged log_sweep_started] ++ eH) w) as SA.
  pose proof (replay_same_store ([Logged log_sweep_started] ++ eH ++ eA) w) as SU.
  destruct (detector_created HighValuePurchases w _ _ _ SH HH) as [TH _].
  destruct (detector_created AuthenticationFailures w _ _ _ SA HA) as [TA _].
  destruct (detector_created UnusualAccess w _ _ _ SU HU) as [TU _].
  rewrite (runs_emitted _ _ _ _ Hrun), created_sweep, !findings_of_app, TH, TA, TU.
  destruct d; simpl; rewrite ?app_nil_r.
  - by apply (detector_within HighValuePurchases w _ _ _ SH HH).
  - by apply (detector_within AuthenticationFailures w _ _ _ SA HA).
  - by apply (detector_within UnusualAccess w _ _ _ SU HU).
Qed.

Lemma rows_from_ids k ds :
  map AnomalyLogRecord.id (rows_from k ds) = seq k (length ds).
Proof. revert k. induction ds as [| d ds IH]; intros k; simpl; by rewrite ?IH. Qed.

Lemma rows_from_unresolved k ds :
  Forall (fun d => AnomalyLogRecord.in_is_resolved d = false) ds ->
  Forall (fun r => unresolved r /\ resolution_invariant r) (rows_from k ds).
Proof.
  intros H. revert k. induction H as [| d ds Hd _ IH]; intros k; simpl; constructor.
  - unfold unresolved, resolution_invariant. simpl. rewrite Hd.
    repeat split; try done; by intros [? ?].
  - apply IH.
Qed.

(** ** The claims about recording, failures and the sweep *)

(** C9.  The rows the recorder inserts, by [logAnomaly] alone or during a
    whole sweep, are unresolved: [is_resolved] is false and [resolved_at],
    [resolved_by] and [notes] are unset; so [resolved_at] and [resolved_by]
    are set exactly when the row is resolved.  The sweep only appends
    them. *)
Theorem recorded_findings_unresolved w :
  (forall type sev user details,
      Forall (fun r => unresolved r /\ resolution_invariant r)
             (recorded (logAnomaly type sev user details) w))
  /\ Forall (fun r => unresolved r /\ resolution_invariant r)
            (recorded detectAnomalies w)
  /\ anomaly_logs (snd (detectAnomalies w))
     = anomaly_logs w ++ recorded detectAnomalies w.
Proof.
  split; [| split].
  - intros type sev user details.
    rewrite (runs_recorded _ _ _ _ (logAnomaly_runs type sev user details w)).
    apply rows_from_unresolved. destruct (faults w _ _); repeat constructor.
  - destruct (created_props (fun d => AnomalyLogRecord.in_is_resolved d = false))
      as (H1 & H2 & H3 & H4 & H5).
    destruct (settles_detectAnomalies _ H1 H2 H3 H4) with (w := w)
      as (evs & Hrun & HP); try by apply H5.
    rewrite (runs_recorded _ _ _ _ Hrun). by apply rows_from_unresolved.
  - destruct (detectAnomalies_runs w) as (eH & eA & eU & _ & _ & _ & Hrun).
    rewrite (runs_recorded _ _ _ _ Hrun). apply (runs_anomaly_logs _ _ _ _ Hrun).
Qed.

(** C10.  From every world, whatever calls reject, the sweep resolves; so do
    the three detectors, the administrator lookup and the recorder. *)
Theorem sweep_never_rejects w :
  (exists w', detectAnomalies w = (Resolved tt, w'))
  /\ (exists w', detectHighValuePurchases w = (Resolved tt, w'))
  /\ (exists w', detectAuthenticationFailures w = (Resolved tt, w'))
  /\ (exists w', detectUnusualAccess w = (Resolved tt, w'))
  /\ (forall role, exists ids w', getAdministrators role w = (Resolved ids, w'))
  /\ (forall type sev user details,
         exists w', logAnomaly type sev user details w = (Resolved tt, w')).
Proof.
  split; [apply detectAnomalies_resolves |].
  split; [destruct (detector_settles HighValuePurchases w) as (evs & H);
          eexists; apply H |].
  split; [destruct (detector_settles AuthenticationFailures w) as (evs & H);
          eexists; apply H |].
  split; [destruct (detector_settles UnusualAccess w) as (evs & H);
          eexists; apply H |].
  split.
  - intros role. eexists _, _. apply getAdministrators_runs.
  - intros type sev user details. eexists. apply logAnomaly_runs.
Qed.



(** ** Notification, then recording *)

Lemma notified_before_recorded_props :
  let P := notified_before_recorded in
  P [] /\ (forall evs1 evs2, P evs1 -> P evs2 -> P (evs1 ++ evs2))
  /\ (forall l, P [Logged l])
  /\ (forall c ok, (forall data, c <> anomalyLogRecord_create data) -> P [Called c ok])
  /\ (forall type sev, reports P type sev).
Proof.
  simpl. unfold notified_before_recorded. split; [| split; [| split; [| split]]].
  - intros i d ok H. by rewrite lookup_nil in H.
  - intros evs1 evs2 H1 H2 i d ok Hi.
    apply lookup_app_Some in Hi as [Hi | [Hle Hi]].
    + destruct (H1 i d ok Hi) as (j & ch & rc & p & -> & Hj & Hs).
      exists j, ch, rc, p. split; [done |]. split; [| done].
      by apply lookup_app_l_Some.
    + destruct (H2 _ d ok Hi) as (j & ch & rc & p & Heq & Hj & Hs).
      exists (length evs1 + j)%nat, ch, rc, p. split; [lia |]. split; [| done].
      rewrite lookup_app_r by lia. rewrite <- Hj. f_equal. lia.
  - intros l [| i] d ok H; simpl in H; [done |]. by rewrite lookup_nil in H.
  - intros c ok Hc [| i] d ok' H; simpl in H.
    + injection H as -> _. by destruct (Hc d).
    + by rewrite lookup_nil in H.
  - intros type sev recipients user details ts ok [| [| i]] d ok' H; simpl in H.
    + done.
    + injection H as <- _. by eexists 0%nat, _, _, _.
    + by rewrite lookup_nil in H.
Qed.


(** ** The administrators *)

Lemma is_administrator_spec role u :
  is_administrator role u = true
  <-> TestUser.is_active u = true
      /\ (TestUser.role u = "admin" \/ TestUser.role u = role
          \/ TestUser.role u = "super_admin").
Proof.
  unfold is_administrator.
  rewrite andb_true_iff, !orb_true_iff, !String.eqb_eq. tauto.
Qed.

Lemma notify_then_logAnomaly_runs recipients sev type user details w :
  let p := {| severity := sev;
              metadata := {| anomalyType := type; userId := user;
                             fields := details; timestamp := now w |} |} in
  let d := finding type sev user details w in
  faults w (sendNotification all_channels recipients p) (ticks w) = false ->
  faults w (anomalyLogRecord_create d) (S (ticks w)) = false ->
  runs (notify recipients sev type user details;;
        logAnomaly type sev user details) w (Resolved tt)
       [Called (sendNotification all_channels recipients p) true;
        Called (anomalyLogRecord_create d) true].
Proof.
  intros p d F1 F2.
  unfold runs, notify, logAnomaly, try_catch, mbind, Async_bind, Date_now, await.
  fold p. rewrite F1. simpl. fold (finding type sev user details w). fold d.
  by rewrite F2.
Qed.


(** ** The claims on the sample stores *)

Lemma no_faults_reliable d orders logs : reliable d (world0 orders logs no_faults).
Proof. by intros c n _. Qed.


Lemma cold_start_flagged_witness :
  reliable HighValuePurchases w_test
  /\ In o5 (test_orders w_test)
  /\ TestOrder.status o5 = "pending"
  /\ now w_test - hours 1 <= TestOrder.created_at o5
  /\ (forall o', ~ in_baseline w_test (TestOrder.user_id o5) o')
  /\ (0 < TestOrder.total_amount o5)%Q
  /\ flags detectHighValuePurchases w_test (warn_high_value o5 0%Q).
Proof.
  assert (reliable HighValuePurchases w_test) as Hrel by apply no_faults_reliable.
  assert (In o5 (test_orders w_test)) as Hin by (simpl; tauto).
  assert (TestOrder.status o5 = "pending") as Hst by reflexivity.
  assert (now w_test - hours 1 <= TestOrder.created_at o5) as Hat by (vm_compute; discriminate).
  assert (forall o', ~ in_baseline w_test (TestOrder.user_id o5) o') as Hnone.
  { intros o' (Ho & Hu & Hs & _). simpl in Ho.
    destruct Ho as [<- | [<- | [<- | [<- | [<- | []]]]]]; discriminate. }
  assert (0 < TestOrder.total_amount o5)%Q as Hpos by reflexivity.
  destruct (cold_start_flagged w_test o5 Hrel Hin Hst Hat Hnone Hpos) as (_ & _ & Hf & _).
  exact (conj Hrel (conj Hin (conj Hst (conj Hat (conj Hnone (conj Hpos Hf)))))).
Defined.



Lemma orders_fail_elsewhere d' :
  d' <> HighValuePurchases -> reliable d' w_orders_down.
Proof.
  intros Hd c n Hc. destruct c; try reflexivity.
  simpl in Hc. congruence.
Qed.



(** With every call rejecting, each detector stops at its first query and
    logs the error; the sweep completes. *)
Example sweep_with_everything_down :
  detectAnomalies w_all_down
  = (Resolved tt,
     replay [Logged log_sweep_started;
             Logged log_high_value_started;
             Called (testOrder_findMany (t0 - hours 1)) false;
             Logged error_high_value;
             Logged log_auth_failures_started;
             Called (auditLog_groupBy (t0 - minutes 30)) false;
             Logged error_auth_failures;
             Logged log_unusual_access_started;
             Called (auditLog_findMany_recent (t0 - hours 2)) false;
             Logged error_unusual_access;
             Logged log_sweep_completed] w_all_down).
Proof. vm_compute. reflexivity. Qed.

(** When a notification rejects, the detector logs the error and stops:
    the finding is not inserted and the orders after it are not examined. *)
Example rejected_notification_stops_detector :
  created (emitted detectHighValuePurchases w_unnotified) = []
  /\ warnings (emitted detectHighValuePurchases w_unnotified)
     = [high_value_warning w_unnotified o3]
  /\ expected_findings HighValuePurchases w_unnotified
     = [high_value_finding w_unnotified o3; high_value_finding w_unnotified o5].
Proof. by vm_compute. Qed.

(** ** The two claims that fail as worded *)

Lemma only_notifications_fail_unnotified : only_notifications_fail w_unnotified.
Proof. intros c n H. destruct c; try discriminate. by eexists _, _, _. Qed.


Lemma past_event_h1 : past_event w_names bob_id h1.
Proof.
  split; [by left |]. split; [done |]. by vm_compute.
Qed.

Lemma recent_event_names userId e :
  recent_event w_names userId e ->
  (e = r1 /\ userId = bob_id) \/ (e = r2 /\ userId = "").
Proof.
  intros (Hin & Hu & Ht). simpl in Hin.
  destruct Hin as [<- | [<- | [<- | []]]].
  - exfalso. vm_compute in Ht. by apply Ht.
  - left. split; [done |]. by injection Hu as <-.
  - right. split; [done |]. by injection Hu as <-.
Qed.

Lemma past_event_names userId e :
  past_event w_names userId e -> e = h1 /\ userId = bob_id.
Proof.
  intros (Hin & Hu & _ & Ht). simpl in Hin.
  destruct Hin as [<- | [<- | [<- | []]]].
  - split; [done |]. by injection Hu as <-.
  - exfalso. by vm_compute in Ht.
  - exfalso. by vm_compute in Ht.
Qed.


(** * Further properties of the service *)

(** ** What the detectors are to find, in words *)

Lemma in_high_value_orders w o :
  In o (high_value_orders w) <-> candidate_order w o /\ above_baseline w o.
Proof.
  unfold high_value_orders, candidate_order, above_baseline, exceeds_baseline.
  by rewrite filter_In, in_recentPurchases, is_high_value_spec.
Qed.

Lemma in_unusual_entries_get w userId a :
  In (userId, a) (unusual_entries w) ->
  userId <> "" /\ has_unusual_access w userId
  /\ Map_get userId (recent_entries w) = Some a.
Proof.
  intros Hin.
  destruct (proj1 (in_unusual_entries w userId)) as [Hne Hun]; [by exists a |].
  split; [done |]. split; [done |].
  apply In_Map_get; [apply NoDup_userAccessMap |].
  unfold unusual_entries in Hin. by apply filter_In in Hin as [Hin _].
Qed.

(** ** Every sweep stays within what the detectors are to find *)

Lemma sweep_within_all w :
  within (all_expected_warnings w) (all_expected_findings w)
         (emitted detectAnomalies w).
Proof.
  destruct (detectAnomalies_runs w) as (eH & eA & eU & HH & HA & HU & Hrun).
  rewrite (runs_emitted _ _ _ _ Hrun).
  destruct (detectHighValuePurchases_within w _ (replay_same_store
              [Logged log_sweep_started] w)) as (eH' & HH' & [WH FH]).
  destruct (detectAuthenticationFailures_within w _ (replay_same_store
              ([Logged log_sweep_started] ++ eH) w)) as (eA' & HA' & [WA FA]).
  destruct (detectUnusualAccess_within w _ (replay_same_store
              ([Logged log_sweep_started] ++ eH ++ eA) w)) as (eU' & HU' & [WU FU]).
  destruct (runs_det _ _ _ _ _ _ HH HH') as [_ <-].
  destruct (runs_det _ _ _ _ _ _ HA HA') as [_ <-].
  destruct (runs_det _ _ _ _ _ _ HU HU') as [_ <-].
  split.
  - rewrite !warnings_app. simpl. rewrite app_nil_r.
    unfold all_expected_warnings. simpl.
    apply incl_app; [by apply incl_appl |]. apply incl_appr.
    apply incl_app; [by apply incl_appl | by apply incl_appr].
  - rewrite created_sweep. unfold all_expected_findings.
    apply incl_app; [by apply incl_appl |]. apply incl_appr.
    apply incl_app; [by apply incl_appl | by apply incl_appr].
Qed.






Lemma flagged_high_value_expected w o avgAmount :
  flags detectAnomalies w (warn_high_value o avgAmount) ->
  In o (high_value_orders w)
  /\ avgAmount = baseline_average w (TestOrder.user_id o).
Proof.
  intros Hf. destruct (sweep_within_all w) as [HW _].
  apply in_warnings in Hf; [| done]. apply HW in Hf.
  unfold all_expected_warnings in Hf. simpl in Hf.
  rewrite !in_app_iff, !in_map_iff in Hf.
  destruct Hf as [(o' & Heq & Ho) | [(g & [=] & _) | (e & [=] & _)]].
  by injection Heq as -> <-.
Qed.

(** ** The two thresholds *)

Lemma baseline_maximum_upper w user_id o' :
  in_baseline w user_id o' ->
  (TestOrder.total_amount o' <= baseline_maximum w user_id)%Q
  /\ exists o'', in_baseline w user_id o''
                 /\ TestOrder.total_amount o'' = baseline_maximum w user_id.
Proof.
  intros Ho'. unfold baseline_maximum.
  assert (In (TestOrder.total_amount o') (baseline_totals w user_id)) as Hin
      by (apply in_baseline_totals; by exists o').
  destruct (MAX (baseline_totals w user_id)) as [m |] eqn:E.
  - apply MAX_spec in E as [Hm Hall]. simpl. split.
    + rewrite List.Forall_forall in Hall. by apply Hall.
    + by apply in_baseline_totals in Hm.
  - by destruct (baseline_totals w user_id).
Qed.

(** X4.  When the approved orders of the baseline have non-negative totals,
    an order that is flagged, whatever rejects, has a positive amount that
    is above the total of every order of its purchaser's baseline. *)
Theorem flagged_order_exceeds_baseline w o avgAmount :
  (forall o', in_baseline w (TestOrder.user_id o) o' ->
              (0 <= TestOrder.total_amount o')%Q) ->
  flags detectAnomalies w (warn_high_value o avgAmount) ->
  (0 < TestOrder.total_amount o)%Q
  /\ forall o', in_baseline w (TestOrder.user_id o) o' ->
                (TestOrder.total_amount o' < TestOrder.total_amount o)%Q.
Proof.
  intros Hpos Hf.
  apply flagged_high_value_expected in Hf as [Ho _].
  apply in_high_value_orders in Ho as [_ [Havg Hmax]].
  assert (forall o', in_baseline w (TestOrder.user_id o) o' ->
                     (TestOrder.total_amount o' < TestOrder.total_amount o)%Q) as Hall.
  { intros o' Ho'.
    destruct (baseline_maximum_upper w _ o' Ho') as [Hle (o'' & Ho'' & Heq)].
    pose proof (Hpos o'' Ho'') as H0. rewrite Heq in H0. lra. }
  split; [| done].
  destruct (baseline_totals w (TestOrder.user_id o)) as [| q l] eqn:E.
  - unfold baseline_average in Havg. rewrite E in Havg. simpl in Havg. lra.
  - assert (In q (baseline_totals w (TestOrder.user_id o))) as Hq
        by (rewrite E; by left).
    apply in_baseline_totals in Hq as (o' & Ho' & Hq).
    pose proof (Hpos o' Ho'). pose proof (Hall o' Ho'). lra.
Qed.

(** X5.  On a store whose high-value calls do not reject, of two pending
    orders of the last hour by one purchaser, the larger is flagged when the
    smaller is. *)
Theorem larger_order_is_flagged w o o' :
  reliable HighValuePurchases w ->
  candidate_order w o -> candidate_order w o' ->
  TestOrder.user_id o' = TestOrder.user_id o ->
  (TestOrder.total_amount o <= TestOrder.total_amount o')%Q ->
  (exists avgAmount, flags detectHighValuePurchases w (warn_high_value o avgAmount)) ->
  exists avgAmount, flags detectHighValuePurchases w (warn_high_value o' avgAmount).
Proof.
  intros Hrel Hc Hc' Hu Hle (avg & Hf).
  pose proof (detectHighValuePurchases_yields w Hrel) as Hy.
  apply (yields_flags _ _ _ _ _ _ Hy) in Hf; [| done].
  apply in_map_iff in Hf as (o0 & Heq & Ho). injection Heq as -> _.
  apply in_high_value_orders in Ho as [_ [Havg Hmax]].
  exists (baseline_average w (TestOrder.user_id o')).
  apply (yields_flags _ _ _ _ _ _ Hy); [done |].
  apply (in_map (high_value_warning w)), in_high_value_orders.
  split; [done |]. unfold above_baseline. rewrite Hu.
  split; eapply Qlt_le_trans; eauto.
Qed.

Lemma larger_order_is_flagged_witness :
  reliable HighValuePurchases w_two_orders
  /\ candidate_order w_two_orders o3 /\ candidate_order w_two_orders o6
  /\ TestOrder.user_id o6 = TestOrder.user_id o3
  /\ (TestOrder.total_amount o3 <= TestOrder.total_amount o6)%Q
  /\ (exists avgAmount,
         flags detectHighValuePurchases w_two_orders (warn_high_value o3 avgAmount))
  /\ exists avgAmount,
      flags detectHighValuePurchases w_two_orders (warn_high_value o6 avgAmount).
Proof.
  assert (reliable HighValuePurchases w_two_orders) as Hrel
      by apply no_faults_reliable.
  assert (candidate_order w_two_orders o3) as H3.
  { split; [simpl; tauto |]. split; [done |]. by vm_compute. }
  assert (candidate_order w_two_orders o6) as H6.
  { split; [simpl; tauto |]. split; [done |]. by vm_compute. }
  assert (TestOrder.user_id o6 = TestOrder.user_id o3) as Hu by reflexivity.
  assert (TestOrder.total_amount o3 <= TestOrder.total_amount o6)%Q as Hle
      by (by vm_compute).
  assert (exists avgAmount,
             flags detectHighValuePurchases w_two_orders
                   (warn_high_value o3 avgAmount)) as Hf.
  { eexists. unfold flags. vm_compute. tauto. }
  exact (conj Hrel (conj H3 (conj H6 (conj Hu (conj Hle (conj Hf
           (larger_order_is_flagged _ _ _ Hrel H3 H6 Hu Hle Hf))))))).
Defined.

Lemma flagged_order_exceeds_baseline_witness :
  (forall o', in_baseline w_test (TestOrder.user_id o3) o' ->
              (0 <= TestOrder.total_amount o')%Q)
  /\ flags detectAnomalies w_test (warn_high_value o3 (2500 # 2))
  /\ (0 < TestOrder.total_amount o3)%Q.
Proof.
  assert (forall o', in_baseline w_test (TestOrder.user_id o3) o' ->
                     (0 <= TestOrder.total_amount o')%Q) as Hpos.
  { intros o' (Ho & _). simpl in Ho.
    destruct Ho as [<- | [<- | [<- | [<- | [<- | []]]]]]; by vm_compute. }
  assert (flags detectAnomalies w_test (warn_high_value o3 (2500 # 2))) as Hf
      by (unfold flags; vm_compute; tauto).
  exact (conj Hpos (conj Hf
           (proj1 (flagged_order_exceeds_baseline w_test o3 _ Hpos Hf)))).
Defined.

(** ** A query that rejects, and a query that finds nothing *)

(** X6.  When its first query rejects, a detector logs its error line and
    does nothing else: no lookup, no notification, no insert. *)
Theorem rejected_query_ends_detector w :
  (faults w (testOrder_findMany (now w - hours 1)) (ticks w) = true ->
   emitted detectHighValuePurchases w
   = [Logged log_high_value_started;
      Called (testOrder_findMany (now w - hours 1)) false;
      Logged error_high_value])
  /\ (faults w (auditLog_groupBy (now w - minutes 30)) (ticks w) = true ->
      emitted detectAuthenticationFailures w
      = [Logged log_auth_failures_started;
         Called (auditLog_groupBy (now w - minutes 30)) false;
         Logged error_auth_failures])
  /\ (faults w (auditLog_findMany_recent (now w - hours 2)) (ticks w) = true ->
      emitted detectUnusualAccess w
      = [Logged log_unusual_access_started;
         Called (auditLog_findMany_recent (now w - hours 2)) false;
         Logged error_unusual_access]).
Proof.
  split; [| split]; intros H; apply (runs_emitted _ _ (Resolved tt));
    unfold runs, detectHighValuePurchases, detectAuthenticationFailures,
      detectUnusualAccess, try_catch, mbind, Async_bind, logger, Date_now, await;
    simpl; by rewrite H.
Qed.

Lemma rejected_query_ends_detector_witness :
  faults w_all_down (testOrder_findMany (now w_all_down - hours 1)) (ticks w_all_down)
  = true
  /\ emitted detectHighValuePurchases w_all_down
     = [Logged log_high_value_started;
        Called (testOrder_findMany (now w_all_down - hours 1)) false;
        Logged error_high_value].
Proof.
  destruct (rejected_query_ends_detector w_all_down) as [Hhigh _].
  exact (conj eq_refl (Hhigh eq_refl)).
Defined.

Lemma no_flagged_group w :
  (forall ip user, (failure_count w ip user <= 5)%nat) -> flagged_groups w = [].
Proof.
  intros Hle. destruct (flagged_groups w) as [| [ip user c] gs] eqn:E; [done |].
  assert (In (LoginGroup.mk ip user c) (flagged_groups w)) as Hin
      by (rewrite E; by left).
  apply in_flagged_groups in Hin as [-> Hc]. specialize (Hle ip user). lia.
Qed.

Lemma no_recent_entry w :
  (forall userId e, recent_event w userId e -> userId = "") -> recent_entries w = [].
Proof.
  intros Hnone. destruct (recent_entries w) as [| [u a] m] eqn:E; [done |].
  assert (In (u, a) (recent_entries w)) as Hin by (rewrite E; by left).
  apply In_Map_get in Hin; [| apply NoDup_userAccessMap].
  assert (is_Some (Map_get u (recent_entries w))) as Hs by (by rewrite Hin).
  apply userAccessMap_Some in Hs as (Hne & e & He & Hu).
  destruct Hne. apply (Hnone u e). by apply recent_event_in_query.
Qed.

Lemma no_recent_purchase w :
  (forall o, ~ candidate_order w o) -> recentPurchases (now w - hours 1) w = [].
Proof.
  intros Hnone. destruct (recentPurchases _ w) as [| o os] eqn:E; [done |].
  destruct (Hnone o). apply in_recentPurchases. rewrite E. by left.
Qed.

(** X7.  When its first query resolves and there is nothing to examine (no
    pending order of the last hour; no group of more than 5 failed logins;
    no recent event with a non-empty user id), a detector makes that one
    query and nothing else. *)
Theorem nothing_to_examine w :
  (faults w (testOrder_findMany (now w - hours 1)) (ticks w) = false ->
   (forall o, ~ candidate_order w o) ->
   emitted detectHighValuePurchases w
   = [Logged log_high_value_started;
      Called (testOrder_findMany (now w - hours 1)) true])
  /\ (faults w (auditLog_groupBy (now w - minutes 30)) (ticks w) = false ->
      (forall ip user, (failure_count w ip user <= 5)%nat) ->
      emitted detectAuthenticationFailures w
      = [Logged log_auth_failures_started;
         Called (auditLog_groupBy (now w - minutes 30)) true])
  /\ (faults w (auditLog_findMany_recent (now w - hours 2)) (ticks w) = false ->
      (forall userId e, recent_event w userId e -> userId = "") ->
      emitted detectUnusualAccess w
      = [Logged log_unusual_access_started;
         Called (auditLog_findMany_recent (now w - hours 2)) true]).
Proof.
  split; [| split]; intros H Hnone; apply (runs_emitted _ _ (Resolved tt)).
  - apply no_recent_purchase in Hnone.
    unfold runs, detectHighValuePurchases, try_catch, mbind, Async_bind, logger,
      Date_now, await.
    simpl. rewrite H.
    change (recentPurchases _ _) with (recentPurchases (now w - hours 1) w).
    by rewrite Hnone.
  - apply no_flagged_group in Hnone.
    unfold runs, detectAuthenticationFailures, try_catch, mbind, Async_bind, logger,
      Date_now, await.
    simpl. rewrite H.
    change (failedLogins_query _ _) with (flagged_groups w).
    by rewrite Hnone.
  - apply no_recent_entry in Hnone.
    unfold runs, detectUnusualAccess, try_catch, mbind, Async_bind, logger,
      Date_now, await.
    simpl. rewrite H.
    change (userAccessMap _) with (recent_entries w).
    by rewrite Hnone.
Qed.

Lemma nothing_to_examine_witness :
  (forall o, ~ candidate_order w_idle o)
  /\ (forall ip user, (failure_count w_idle ip user <= 5)%nat)
  /\ (forall userId e, recent_event w_idle userId e -> userId = "")
  /\ emitted detectHighValuePurchases w_idle
     = [Logged log_high_value_started;
        Called (testOrder_findMany (now w_idle - hours 1)) true]
  /\ emitted detectAuthenticationFailures w_idle
     = [Logged log_auth_failures_started;
        Called (auditLog_groupBy (now w_idle - minutes 30)) true]
  /\ emitted detectUnusualAccess w_idle
     = [Logged log_unusual_access_started;
        Called (auditLog_findMany_recent (now w_idle - hours 2)) true].
Proof.
  assert (forall o, ~ candidate_order w_idle o) as Ho.
  { intros o (Hin & Hst & _). by destruct Hin as [<- | [<- | []]]. }
  assert (forall ip user, (failure_count w_idle ip user <= 5)%nat) as Hg.
  { intros ip user. unfold failure_count. simpl. lia. }
  assert (forall userId e, recent_event w_idle userId e -> userId = "") as He.
  { by intros userId e [[] _]. }
  destruct (nothing_to_examine w_idle) as (Hhigh & Hauth & Hunusual).
  exact (conj Ho (conj Hg (conj He
           (conj (Hhigh eq_refl Ho) (conj (Hauth eq_refl Hg) (Hunusual eq_refl He)))))).
Defined.

(** ** One finding for each group and each user *)

Lemma NoDup_map_filter {A B} (f : A -> B) (p : A -> bool) (l : list A) :
  NoDup (map f l) -> NoDup (map f (List.filter p l)).
Proof.
  induction l as [| x l IH]; simpl; [done |].
  intros [Hx Hl]%NoDup_cons. destruct (p x); simpl; [| by apply IH].
  apply NoDup_cons. split; [| by apply IH].
  intros Hin. apply Hx. apply list_elem_of_In in Hin.
  apply in_map_iff in Hin as (y & <- & Hy). apply filter_In in Hy as [Hy _].
  apply list_elem_of_In. by apply in_map.
Qed.



(** ** The detectors in any order *)

Lemma Promise_all_detectors ds w0 w :
  same_store w0 w -> (forall d, In d ds -> reliable d w0) ->
  exists evs, runs (Promise_all (map detector ds)) w (Resolved tt) evs
              /\ created evs = flat_map (fun d => expected_findings d w0) ds.
Proof.
  revert w. induction ds as [| d ds IH]; intros w Hw Hrel.
  - exists []. by split.
  - destruct (detector_settles d w) as (evs1 & Hrun1).
    destruct (detector_created d w0 w _ _ Hw Hrun1) as [_ Hc1].
    destruct (IH (replay evs1 w)) as (evs2 & Hrun2 & Hc2).
    { eapply same_store_trans; [done | apply replay_same_store]. }
    { intros d' Hd'. apply Hrel. by right. }
    exists (evs1 ++ evs2). split.
    + by apply runs_Promise_all_cons.
    + rewrite created_app, Hc1, Hc2; [done |]. apply Hrel. by left.
Qed.



(** ** What a finding of unusual access reports *)

Lemma NoDup_Set_add x s : NoDup s -> NoDup (Set_add x s).
Proof.
  intros H. unfold Set_add. destruct (Set_has x s) eqn:E; [done |].
  apply NoDup_app. split; [done |]. split; [| apply NoDup_singleton].
  intros y Hy ->%list_elem_of_singleton.
  apply list_elem_of_In, Set_has_In in Hy. congruence.
Qed.

Lemma NoDup_entries logs userId a :
  Map_get userId (userAccessMap logs) = Some a ->
  NoDup (resources a) /\ NoDup (ipAddresses a).
Proof.
  unfold userAccessMap.
  assert (forall m0,
    (forall k b, Map_get k m0 = Some b -> NoDup (resources b) /\ NoDup (ipAddresses b)) ->
    forall k b, Map_get k (fold_left note_access logs m0) = Some b ->
                NoDup (resources b) /\ NoDup (ipAddresses b)) as H.
  { induction logs as [| e logs IH]; intros m0 Hm0; simpl; [done |].
    apply IH. intros k b. rewrite Map_get_note_access.
    destruct (AuditLog.user_id e) as [u |]; [| apply Hm0].
    destruct (truthy u && String.eqb k u); [| apply Hm0].
    intros [= <-]. simpl.
    assert (NoDup (resources (default no_access (Map_get k m0)))
            /\ NoDup (ipAddresses (default no_access (Map_get k m0)))) as [H1 H2].
    { destruct (Map_get k m0) as [b |] eqn:E; simpl.
      - by apply (Hm0 k).
      - split; constructor. }
    split; by apply NoDup_Set_add. }
  apply H. intros k b Hk. discriminate.
Qed.

Lemma entry_resources w userId a r :
  Map_get userId (recent_entries w) = Some a ->
  (In r (resources a) <-> exists e, recent_event w userId e /\ AuditLog.resource e = r).
Proof.
  intros Ha. unfold recent_entries in Ha.
  pose proof (userAccessMap_resources (recentLogs_query (now w - hours 2) w)
                                      userId r) as H.
  assert (userId <> "") as Hne.
  { apply (userAccessMap_Some (recentLogs_query (now w - hours 2) w)).
    by rewrite Ha. }
  split.
  - intros Hr. destruct (proj1 H) as (_ & e & He & Hu & <-); [by exists a |].
    exists e. split; [| done]. by apply recent_event_in_query.
  - intros (e & [He Hu]%recent_event_in_query & <-).
    destruct (proj2 H) as (a' & Ha' & Hr); [split; [done |]; by exists e |].
    rewrite Ha in Ha'. by injection Ha' as <-.
Qed.

Lemma entry_ipAddresses w userId a ip :
  Map_get userId (recent_entries w) = Some a ->
  (In ip (ipAddresses a)
   <-> exists e, recent_event w userId e /\ AuditLog.ip_address e = ip).
Proof.
  intros Ha. unfold recent_entries in Ha.
  pose proof (userAccessMap_ipAddresses (recentLogs_query (now w - hours 2) w)
                                        userId ip) as H.
  assert (userId <> "") as Hne.
  { apply (userAccessMap_Some (recentLogs_query (now w - hours 2) w)).
    by rewrite Ha. }
  split.
  - intros Hr. destruct (proj1 H) as (_ & e & He & Hu & <-); [by exists a |].
    exists e. split; [| done]. by apply recent_event_in_query.
  - intros (e & [He Hu]%recent_event_in_query & <-).
    destruct (proj2 H) as (a' & Ha' & Hr); [split; [done |]; by exists e |].
    rewrite Ha in Ha'. by injection Ha' as <-.
Qed.

Lemma unusual_lists w userId a :
  Map_get userId (recent_entries w) = Some a ->
  let rs := unusualResources_of (past_of w userId) a in
  let ips := unusualIps_of (past_of w userId) a in
  NoDup rs /\ NoDup ips
  /\ (forall r, In r rs <-> unusual_resource w userId r)
  /\ (forall ip, In ip ips <-> unusual_ip w userId ip).
Proof.
  intros Ha rs ips. destruct (NoDup_entries _ _ _ Ha) as [N1 N2].
  split; [apply NoDup_ListNoDup, List.NoDup_filter; by apply NoDup_ListNoDup |].
  split; [apply NoDup_ListNoDup, List.NoDup_filter; by apply NoDup_ListNoDup |].
  split.
  - intros r. unfold rs, unusualResources_of, unusual_resource.
    rewrite filter_In, (entry_resources w userId a r Ha).
    rewrite negb_true_iff, bool_decide_eq_false, in_commonResources.
    unfold known_resource. by setoid_rewrite in_past_of.
  - intros ip. unfold ips, unusualIps_of, unusual_ip.
    rewrite filter_In, (entry_ipAddresses w userId a ip Ha).
    rewrite <- not_false_iff_true, seen_ipFrequency.
    unfold known_ip. by setoid_rewrite in_past_of.
Qed.



Lemma filter_all {A} (p : A -> bool) (l : list A) :
  (forall x, p x = true) -> List.filter p l = l.
Proof.
  intros Hp. induction l as [| x l IH]; simpl; [done |]. by rewrite Hp, IH.
Qed.

Lemma unknown_in_empty_history l :
  List.filter (fun r => negb (bool_decide (r ∈ commonResources []))) l = l
  /\ List.filter (never_seen (ipFrequency [])) l = l.
Proof.
  split; apply filter_all; intros x.
  - apply negb_true_iff, bool_decide_eq_false. unfold commonResources. simpl.
    set_solver.
  - unfold never_seen, ipFrequency. simpl. by rewrite lookup_empty.
Qed.



(** ** Observing the runs of the detectors *)

Section Produces.
Context {X : Type}.
Variable obs : Event -> list X.

Lemma produces_eq {A} (m : Async A) w a xs xs' :
  produces obs m w a xs -> xs = xs' -> produces obs m w a xs'.
Proof. by intros H <-. Qed.

Lemma produces_ret {A} (a : A) w : produces obs (mret a) w a [].
Proof. exists []. by split; [apply runs_ret |]. Qed.

Lemma produces_bind {A B} (m : Async A) (f : A -> Async B) w a b xs1 xs2 :
  produces obs m w a xs1 ->
  (forall w', same_store w w' -> produces obs (f a) w' b xs2) ->
  produces obs (m ≫= f) w b (xs1 ++ xs2).
Proof.
  intros (evs1 & Hm & <-) Hf.
  destruct (Hf (replay evs1 w) (replay_same_store _ _)) as (evs2 & Hfa & <-).
  exists (evs1 ++ evs2). split; [by eapply runs_bind |]. apply flat_map_app.
Qed.

Lemma produces_try {A} (body handler : Async A) w a xs :
  produces obs body w a xs -> produces obs (try_catch body handler) w a xs.
Proof. intros (evs & H & <-). exists evs. by split; [apply runs_try |]. Qed.

Lemma produces_logger l w : produces obs (logger l) w tt (obs (Logged l)).
Proof.
  exists [Logged l]. split; [apply runs_logger |]. simpl. apply app_nil_r.
Qed.

Lemma produces_Date_now w : produces obs Date_now w (now w) [].
Proof. exists []. by split; [apply runs_Date_now |]. Qed.

Lemma produces_await {A} c (result : World -> A) w :
  faults w c (ticks w) = false ->
  produces obs (await c result (effect_of c)) w (result w) (obs (Called c true)).
Proof.
  intros Hok. exists [Called c true]. split.
  - pose proof (runs_await c result w) as H. by rewrite Hok in H.
  - simpl. apply app_nil_r.
Qed.

Lemma produces_for_of {A} (body : A -> Async unit) (O : A -> list X) w0 :
  (forall x w, same_store w0 w -> produces obs (body x) w tt (O x)) ->
  forall xs w, same_store w0 w -> produces obs (for_of xs body) w tt (flat_map O xs).
Proof.
  intros Hbody xs. induction xs as [| x xs IH]; intros w Hw; simpl.
  - apply produces_ret.
  - eapply produces_bind; [by apply Hbody |].
    intros w' Hw'. apply IH. store_eq.
Qed.

(** What [obs] sees of the steps a detector takes for a finding. *)
Variable w0 : World.
Variable d : Detector.
Variable seen : AnomalyLogRecord.CreateInput -> list X.
Hypothesis queries_resolve :
  forall c n, owner c = Some d ->
              (forall data, c <> anomalyLogRecord_create data) ->
              faults w0 c n = false.
Hypothesis alert_seen :
  forall w role sev type user details,
    same_store w0 w -> detector_of_type type = Some d -> role = role_of d ->
    produces obs (admins ← getAdministrators role;
                  notify admins sev type user details;;
                  logAnomaly type sev user details)
             w tt (seen (finding type sev user details w0)).

Lemma query_resolves w c :
  same_store w0 w -> owner c = Some d ->
  (forall data, c <> anomalyLogRecord_create data) ->
  faults w c (ticks w) = false.
Proof using queries_resolve.
  intros (_ & _ & _ & _ & ->) Hc Hq. by apply queries_resolve.
Qed.

Lemma produces_detectHighValuePurchases w :
  d = HighValuePurchases -> same_store w0 w ->
  produces obs detectHighValuePurchases w tt
    (obs (Logged log_high_value_started)
     ++ obs (Called (testOrder_findMany (now w0 - hours 1)) true)
     ++ flat_map
          (fun o =>
             obs (Called (queryRaw_userStats (TestOrder.user_id o)
                            (now w0 - days 90) (now w0 - hours 1)) true)
             ++ if exceeds_baseline w0 o
                then obs (Logged (high_value_warning w0 o))
                     ++ seen (high_value_finding w0 o)
                else [])
          (recentPurchases (now w0 - hours 1) w0)).
Proof using queries_resolve alert_seen.
  intros Hd Hw. unfold detectHighValuePurchases.
  eapply produces_bind; [apply produces_logger |]. intros w1 Hw1.
  apply produces_try.
  eapply produces_eq.
  { eapply produces_bind; [apply produces_Date_now |]. intros w2 Hw2.
    assert (now w1 = now w0) as -> by store_eq.
    eapply produces_bind.
    { apply (produces_await (testOrder_findMany _)).
      apply query_resolves; [store_eq | by rewrite Hd | done]. }
    intros w3 Hw3. rewrite (recentPurchases_same_store w0 w2) by store_eq.
    eapply (produces_for_of _ _ w0); [| store_eq].
    intros o w4 Hw4. unfold high_value_purchase.
    eapply produces_eq.
    { eapply produces_bind; [apply produces_Date_now |]. intros w5 Hw5.
      eapply produces_bind; [apply produces_Date_now |]. intros w6 Hw6.
      assert (now w4 = now w0) as -> by store_eq.
      assert (now w5 = now w0) as -> by store_eq.
      eapply produces_bind.
      { apply (produces_await (queryRaw_userStats _ _ _)).
        apply query_resolves; [store_eq | by rewrite Hd | done]. }
      intros w7 Hw7. rewrite (userStats_query_same_store w0 w6) by store_eq.
      change (is_high_value _ _ _) with (exceeds_baseline w0 o).
      change (or_zero _) with (baseline_average w0 (TestOrder.user_id o)).
      instantiate (1 := if exceeds_baseline w0 o
                        then obs (Logged (high_value_warning w0 o))
                             ++ seen (high_value_finding w0 o)
                        else []).
      destruct (exceeds_baseline w0 o); [| apply produces_ret].
      eapply produces_bind; [apply produces_logger |]. intros w8 Hw8.
      apply alert_seen; [store_eq | by rewrite Hd | by rewrite Hd]. }
    done. }
  done.
Qed.

Lemma produces_detectAuthenticationFailures w :
  d = AuthenticationFailures -> same_store w0 w ->
  produces obs detectAuthenticationFailures w tt
    (obs (Logged log_auth_failures_started)
     ++ obs (Called (auditLog_groupBy (now w0 - minutes 30)) true)
     ++ flat_map
          (fun g => obs (Logged (auth_failure_warning g))
                    ++ seen (auth_failure_finding w0 g))
          (flagged_groups w0)).
Proof using queries_resolve alert_seen.
  intros Hd Hw. unfold detectAuthenticationFailures.
  eapply produces_bind; [apply produces_logger |]. intros w1 Hw1.
  apply produces_try.
  eapply produces_eq.
  { eapply produces_bind; [apply produces_Date_now |]. intros w2 Hw2.
    assert (now w1 = now w0) as -> by store_eq.
    eapply produces_bind.
    { apply (produces_await (auditLog_groupBy _)).
      apply query_resolves; [store_eq | by rewrite Hd | done]. }
    intros w3 Hw3. rewrite (failedLogins_query_same_store w0 w2) by store_eq.
    eapply (produces_for_of _ _ w0); [| store_eq].
    intros g w4 Hw4. unfold auth_failure.
    eapply produces_bind; [apply produces_logger |]. intros w5 Hw5.
    apply alert_seen; [store_eq | by rewrite Hd | by rewrite Hd]. }
  done.
Qed.

Lemma produces_detectUnusualAccess w :
  d = UnusualAccess -> same_store w0 w ->
  produces obs detectUnusualAccess w tt
    (obs (Logged log_unusual_access_started)
     ++ obs (Called (auditLog_findMany_recent (now w0 - hours 2)) true)
     ++ flat_map
          (fun entry =>
             obs (Called (auditLog_findMany_past (fst entry)
                            (now w0 - days 30) (now w0 - hours 2)) true)
             ++ if unusual_entry w0 entry
                then obs (Called (testUser_findUnique (fst entry)) true)
                     ++ obs (Logged (unusual_access_warning entry))
                     ++ seen (unusual_access_finding w0 entry)
                else [])
          (recent_entries w0)).
Proof using queries_resolve alert_seen.
  intros Hd Hw. unfold detectUnusualAccess.
  eapply produces_bind; [apply produces_logger |]. intros w1 Hw1.
  apply produces_try.
  eapply produces_eq.
  { eapply produces_bind; [apply produces_Date_now |]. intros w2 Hw2.
    assert (now w1 = now w0) as -> by store_eq.
    eapply produces_bind.
    { apply (produces_await (auditLog_findMany_recent _)).
      apply query_resolves; [store_eq | by rewrite Hd | done]. }
    intros w3 Hw3. rewrite (recentLogs_query_same_store w0 w2) by store_eq.
    eapply (produces_for_of _
              (fun entry =>
                 obs (Called (auditLog_findMany_past (fst entry)
                                (now w0 - days 30) (now w0 - hours 2)) true)
                 ++ if unusual_entry w0 entry
                    then obs (Called (testUser_findUnique (fst entry)) true)
                         ++ obs (Logged (unusual_access_warning entry))
                         ++ seen (unusual_access_finding w0 entry)
                    else []) w0); [| store_eq].
    intros [userId recentAccess] w4 Hw4. unfold unusual_access.
    eapply produces_eq.
    { eapply produces_bind; [apply produces_Date_now |]. intros w5 Hw5.
      eapply produces_bind; [apply produces_Date_now |]. intros w6 Hw6.
      assert (now w4 = now w0) as -> by store_eq.
      assert (now w5 = now w0) as -> by store_eq.
      eapply produces_bind.
      { apply (produces_await (auditLog_findMany_past _ _ _)).
        apply query_resolves; [store_eq | by rewrite Hd | done]. }
      intros w7 Hw7. rewrite (pastUserActivity_query_same_store w0 w6) by store_eq.
      change (pastUserActivity_query _ _ _ w0) with (past_of w0 userId).
      change (is_unusual _ _) with (unusual_entry w0 (userId, recentAccess)).
      instantiate (1 := if unusual_entry w0 (userId, recentAccess)
                        then obs (Called (testUser_findUnique userId) true)
                             ++ obs (Logged (unusual_access_warning
                                               (userId, recentAccess)))
                             ++ seen (unusual_access_finding w0 (userId, recentAccess))
                        else []).
      destruct (unusual_entry w0 (userId, recentAccess)); [| apply produces_ret].
      eapply produces_bind.
      { apply (produces_await (testUser_findUnique _)).
        apply query_resolves; [store_eq | by rewrite Hd | done]. }
      intros w8 Hw8. rewrite (findUnique_query_same_store w0 w7) by store_eq.
      eapply produces_bind; [apply produces_logger |]. intros w9 Hw9.
      apply alert_seen; [store_eq | by rewrite Hd | by rewrite Hd]. }
    done. }
  done.
Qed.
End Produces.

(** The run of the three steps for a finding, when the notification
    resolves: the lookup, with or without its error line; the notification
    to the ids found, or to nobody; the insert, with or without its error
    line. *)
Lemma alert_runs w role sev type user details :
  let lookup_failed := faults w (testUser_findMany role) (ticks w) in
  let ids := if lookup_failed then [] else map TestUser.id (administrators role w) in
  let d := finding type sev user details w in
  let insert_failed := faults w (anomalyLogRecord_create d) (S (S (ticks w))) in
  faults w (sendNotification all_channels ids (payload_of d)) (S (ticks w)) = false ->
  runs (admins ← getAdministrators role;
        notify admins sev type user details;;
        logAnomaly type sev user details) w (Resolved tt)
       ((if lookup_failed
         then [Called (testUser_findMany role) false; Logged error_get_administrators]
         else [Called (testUser_findMany role) true])
        ++ [Called (sendNotification all_channels ids (payload_of d)) true]
        ++ (if insert_failed
            then [Called (anomalyLogRecord_create d) false; Logged error_log_anomaly]
            else [Called (anomalyLogRecord_create d) true])).
Proof.
  intros lookup_failed ids d insert_failed.
  unfold runs, getAdministrators, notify, logAnomaly, try_catch, mbind, Async_bind,
    Date_now, await, logger, mret, Async_ret.
  subst lookup_failed ids insert_failed d. unfold payload_of, finding. simpl.
  destruct (faults w (testUser_findMany role) (ticks w)); simpl;
    intros ->; simpl; by destruct (faults w (anomalyLogRecord_create _) _).
Qed.

Section Alerts.
Variable w0 : World.
Variable d : Detector.
Hypothesis Hrel : notifies_reliably d w0.

Lemma alert_runs_from w role sev type user details :
  same_store w0 w -> detector_of_type type = Some d ->
  exists lookup insert ids,
    runs (admins ← getAdministrators role;
          notify admins sev type user details;;
          logAnomaly type sev user details) w (Resolved tt)
         (lookup
          ++ [Called (sendNotification all_channels ids
                        (payload_of (finding type sev user details w0))) true]
          ++ insert)
    /\ (forall l, In (Logged l) (lookup ++ insert) -> is_warning l = false)
    /\ (forall c ok, In (Called c ok) lookup -> exists r, c = testUser_findMany r)
    /\ (forall c ok, In (Called c ok) insert ->
                     exists data, c = anomalyLogRecord_create data)
    /\ (faults w0 (testUser_findMany role) (ticks w) = false ->
        ids = map TestUser.id (administrators role w0)).
Proof using Hrel.
  intros Hw Hty. pose proof (alert_runs w role sev type user details) as H.
  simpl in H.
  assert (finding type sev user details w = finding type sev user details w0) as Hf
      by (unfold finding; f_equal; store_eq).
  assert (faults w = faults w0) as Hfaults by store_eq.
  assert (administrators role w = administrators role w0) as Hadm
      by (unfold administrators; f_equal; store_eq).
  rewrite Hf, Hfaults, Hadm in H.
  eexists _, _, _. split; [apply H; by apply Hrel | clear H].
  - split; [| split; [| split]].
    + intros l [Hl | Hl]%in_app_iff.
      * destruct (faults w0 (testUser_findMany role) _); simpl in Hl; destruct_or! Hl;
          try done; by injection Hl as <-.
      * destruct (faults w0 (anomalyLogRecord_create _) _); simpl in Hl;
          destruct_or! Hl; try done; by injection Hl as <-.
    + intros c ok Hc.
      destruct (faults w0 (testUser_findMany role) _); simpl in Hc; destruct_or! Hc;
        try done; injection Hc as <- _; by eexists.
    + intros c ok Hc.
      destruct (faults w0 (anomalyLogRecord_create _) _); simpl in Hc;
        destruct_or! Hc; try done; injection Hc as <- _; by eexists.
    + by intros ->.
Qed.

(** An observation that sees neither the lookups, nor the inserts, nor
    the error lines. *)
Lemma alert_seen_by {X} (obs : Event -> list X) w role sev type user details :
  (forall l, is_warning l = false -> obs (Logged l) = []) ->
  (forall r ok, obs (Called (testUser_findMany r) ok) = []) ->
  (forall data ok, obs (Called (anomalyLogRecord_create data) ok) = []) ->
  same_store w0 w -> detector_of_type type = Some d ->
  exists ids,
    produces obs (admins ← getAdministrators role;
                  notify admins sev type user details;;
                  logAnomaly type sev user details) w tt
             (obs (Called (sendNotification all_channels ids
                             (payload_of (finding type sev user details w0))) true))
    /\ (faults w0 (testUser_findMany role) (ticks w) = false ->
        ids = map TestUser.id (administrators role w0)).
Proof using Hrel.
  intros Olog Olookup Oinsert Hw Hty.
  destruct (alert_runs_from w role sev type user details Hw Hty)
    as (lookup & insert & ids & Hrun & Hl & Hlk & Hins & Hids).
  exists ids. split; [| done]. eexists. split; [exact Hrun |].
  assert (forall evs, (forall e, In e evs -> obs e = []) -> flat_map obs evs = [])
    as Hquiet.
  { induction evs as [| e evs IH]; intros H; simpl; [done |].
    rewrite H by (by left). apply IH. intros e' He'. apply H. by right. }
  rewrite !flat_map_app. simpl.
  rewrite (Hquiet lookup), (Hquiet insert), !app_nil_r; [done | |].
  - intros [l | c ok] He.
    + apply Olog, Hl, in_app_iff. by right.
    + destruct (Hins c ok He) as [data ->]. apply Oinsert.
  - intros [l | c ok] He.
    + apply Olog, Hl, in_app_iff. by left.
    + destruct (Hlk c ok He) as [r ->]. apply Olookup.
Qed.
End Alerts.

Lemma flat_map_if {A B} (p : A -> bool) (g : A -> list B) (l : list A) :
  flat_map (fun x => if p x then g x else []) l = flat_map g (List.filter p l).
Proof.
  induction l as [| x l IH]; simpl; [done |].
  destruct (p x); simpl; by rewrite IH.
Qed.

Lemma flat_map_one {A B} (f : A -> B) (l : list A) :
  flat_map (fun x => [f x]) l = map f l.
Proof. induction l as [| x l IH]; simpl; [done | by rewrite IH]. Qed.

(** What an observation of the warnings and the notifications sees of a
    detector whose queries and notifications resolve: for each finding, in
    order, its warning and what the three steps for it show. *)
Lemma detector_produces {X} (obs : Event -> list X)
      (seen : AnomalyLogRecord.CreateInput -> list X) w d :
  notifies_reliably d w ->
  (forall l, is_warning l = false -> obs (Logged l) = []) ->
  (forall c ok, (forall ch rc p, c <> sendNotification ch rc p) ->
                obs (Called c ok) = []) ->
  (forall w' ids type sev user details,
     same_store w w' ->
     (faults w (testUser_findMany (role_of d)) (ticks w') = false ->
      ids = map TestUser.id (administrators (role_of d) w)) ->
     obs (Called (sendNotification all_channels ids
                    (payload_of (finding type sev user details w))) true)
     = seen (finding type sev user details w)) ->
  produces obs (detector d) w tt
    match d with
    | HighValuePurchases =>
        flat_map (fun o => obs (Logged (high_value_warning w o))
                           ++ seen (high_value_finding w o))
                 (high_value_orders w)
    | AuthenticationFailures =>
        flat_map (fun g => obs (Logged (auth_failure_warning g))
                           ++ seen (auth_failure_finding w g))
                 (flagged_groups w)
    | UnusualAccess =>
        flat_map (fun entry => obs (Logged (unusual_access_warning entry))
                               ++ seen (unusual_access_finding w entry))
                 (unusual_entries w)
    end.
Proof.
  intros Hrel Olog Ocall Osend.
  assert (forall w' role sev type user details,
            same_store w w' -> detector_of_type type = Some d -> role = role_of d ->
            produces obs (admins ← getAdministrators role;
                          notify admins sev type user details;;
                          logAnomaly type sev user details) w' tt
                     (seen (finding type sev user details w))) as Halert.
  { intros w' role sev type user details Hw' Hty ->.
    destruct (alert_seen_by w d Hrel obs w' (role_of d) sev type user details)
      as (ids & Hp & Hids); try done.
    - intros r ok. by apply Ocall.
    - intros data ok. by apply Ocall.
    - eapply produces_eq; [exact Hp |]. by apply Osend with (w' := w'). }
  destruct d; simpl.
  - eapply produces_eq.
    + by apply (produces_detectHighValuePurchases obs w HighValuePurchases seen).
    + rewrite Olog, Ocall by done. simpl. unfold high_value_orders.
      rewrite <- flat_map_if. apply flat_map_ext. intros o.
      by rewrite Ocall.
  - eapply produces_eq.
    + by apply (produces_detectAuthenticationFailures obs w AuthenticationFailures
                  seen).
    + by rewrite Olog, Ocall.
  - eapply produces_eq.
    + by apply (produces_detectUnusualAccess obs w UnusualAccess seen).
    + rewrite Olog, Ocall by done. simpl. unfold unusual_entries.
      rewrite <- flat_map_if. apply flat_map_ext. intros entry.
      rewrite Ocall by done. simpl. destruct (unusual_entry w entry); [| done].
      by rewrite Ocall.
Qed.

Lemma produces_emitted {A X} (obs : Event -> list X) (m : Async A) w a xs :
  produces obs m w a xs -> (m w).1 = Resolved a /\ flat_map obs (emitted m w) = xs.
Proof.
  intros (evs & Hrun & <-). rewrite (runs_emitted _ _ _ _ Hrun).
  split; [| done]. unfold runs in Hrun. by rewrite Hrun.
Qed.




